(** * PPO agent of lagom (baselines/ppo/agent.py)

    A shallow embedding of [Actor], [Critic] and [Agent] with the methods
    [choose_action], [learn_one_update] and [learn], followed by the
    properties of the update algorithm.

    Conventions of the embedding.
    - Float tensors are idealised as lists of real numbers: a 1-D tensor of
      shape [N] is a [list R] of length [N].  Rounding, NaN and infinities
      are outside the model.
    - Python exceptions are values of [exn]; a method is a computation in
      the monad [Py St], which threads a state and may raise.  A raise keeps
      the state reached so far, as attribute assignments do in Python.
    - The tensor library (layers, distributions, autograd, Adam, the random
      generator) is an interface, [Torch] and [Trainable]; the agent is
      written against it. *)

From Stdlib Require Import Reals Lra Lia.
From stdpp Require Import base option list gmap strings.

(** ** Exceptions and the state-and-exception monad *)

Inductive exn : Type :=
| AttributeError (name : string)
| UnboundLocalError (name : string)
| KeyError (key : string)
| TypeError
| ValueError (msg : string)
| RuntimeError (msg : string)
| IndexError
| AssertionError.

Inductive result (A : Type) : Type :=
| Ok (a : A)
| Raise (e : exn).
Arguments Ok {A} a.
Arguments Raise {A} e.

Definition is_ok {A} (r : result A) : bool :=
  match r with Ok _ => true | Raise _ => false end.

Definition Py (St A : Type) : Type := St → result A * St.

#[global] Instance Py_ret {St} : MRet (Py St) := λ A a s, (Ok a, s).
#[global] Instance Py_bind {St} : MBind (Py St) := λ A B f m s,
  match m s with
  | (Ok a, s') => f a s'
  | (Raise e, s') => (Raise e, s')
  end.

Definition raise {St A} (e : exn) : Py St A := λ s, (Raise e, s).
Definition gets {St A} (f : St → A) : Py St A := λ s, (Ok (f s), s).
Definition modify {St} (f : St → St) : Py St unit := λ s, (Ok tt, f s).

(** Run a computation on a component of the state (a lens given by its
    getter and setter). *)
Definition zoom {St T A} (get : St → T) (set : T → St → St)
    (m : Py T A) : Py St A := λ s,
  let '(r, t) := m (get s) in (r, set t s).

(** A total function that returns a value and a new state. *)
Definition step {St A} (f : St → A * St) : Py St A := λ s,
  let '(a, s') := f s in (Ok a, s').

(** The computation returns normally from state [s]. *)
Definition returns {St A} (m : Py St A) (s : St) : bool := is_ok (m s).1.

(** A computation whose every run relates the final state to the initial
    one by [R], whether it returns or raises. *)
Definition preserves {St A} (R : relation St) (m : Py St A) : Prop :=
  ∀ s, R s (m s).2.

(** ** Numerics on 1-D tensors *)

(** Division is total on [R] ([x / 0 = 0]), so [mean] and [std] have a value
    on tensors too short to have one in torch (NaN); the statements about
    them are made for tensors that are long enough. *)
Module Numeric.
Local Open Scope R_scope.

Definition sum (x : list R) : R := foldr Rplus 0 x.

(** [x.mean()], [np.mean(x)] *)
Definition mean (x : list R) : R := sum x / INR (length x).

(** [torch.clamp(x, lo, hi)]: [min(max(x, lo), hi)] *)
Definition clamp (x lo hi : R) : R := Rmin (Rmax x lo) hi.

(** [x.std()]: torch's default is the unbiased estimator, with [N - 1]
    in the denominator. *)
Definition var (x : list R) : R :=
  sum (map (λ a, (a - mean x) ^ 2) x) / (INR (length x) - 1).
Definition std (x : list R) : R := sqrt (var x).

(** [A -> (A - mean(A)) / c]: the map that [learn] applies to the
    advantages, with [c = std(A) + 1e-8]. *)
Definition centre_scale (c : R) (x : list R) : list R :=
  map (λ a, (a - mean x) / c) x.

(** [F.mse_loss(input, target, reduction='none')] *)
Definition mse_loss (input target : list R) : list R :=
  zip_with (λ a b, (a - b) ^ 2) input target.

(** Element-wise tensor operators. *)
Definition tsub : list R → list R → list R := zip_with Rminus.
Definition tadd : list R → list R → list R := zip_with Rplus.
Definition tmul : list R → list R → list R := zip_with Rmult.
Definition tmin : list R → list R → list R := zip_with Rmin.
Definition tmax : list R → list R → list R := zip_with Rmax.
Definition tneg : list R → list R := map Ropp.
Definition texp : list R → list R := map exp.
Definition tclamp (x : list R) (lo hi : R) : list R :=
  map (λ a, clamp a lo hi) x.

(** [(x < a) | (x > b)] followed by [.float()] *)
Definition outside (lo hi : R) (x : R) : R :=
  if Rlt_dec x lo then 1 else if Rgt_dec x hi then 1 else 0.
End Numeric.
Import Numeric.

(** ** The environment description and the configuration *)

(** [gym.spaces]: the kinds of space an environment may declare. *)
Inductive Space : Type :=
| Discrete (n : nat)
| Box (shape : list nat)
| MultiDiscrete (nvec : list nat)
| MultiBinary (n : nat)
| TupleSpace
| DictSpace.

Record Env : Type := {
  observation_space : Space;
  action_space : Space;
}.

(** The keys of [config] that the agent reads. *)
Record Config : Type := {
  nn_sizes : list nat;
  agent_policy_lr : R;
  agent_value_lr : R;
  agent_use_lr_scheduler : bool;
  agent_gamma : R;
  agent_gae_lambda : R;
  agent_std0 : R;
  agent_standardize_adv : bool;
  agent_max_grad_norm : R;
  agent_clip_range : R;
  train_timestep : R;
  train_batch_size : nat;
  train_num_epochs : Z;
}.

(** ** The tensor library as an interface *)

Class Torch : Type := {
  Tensor : Type;      (* one row: an observation or a feature vector *)
  Action : Type;
  NdArray : Type;
  Dist : Type;        (* distribution object of one row *)
  Linear : Type;      (* an [nn.Linear] layer with its parameters *)
  Head : Type;        (* an action head module with its parameters *)
  Generator : Type;   (* state of the global random generator *)
  (* lagom.envs *)
  flatdim : Space → nat;
  (* lagom.networks *)
  make_fc : nat → list nat → Generator → list Linear * Generator;
  ortho_init : Linear → option string → R → R → Generator → Linear * Generator;
  CategoricalHead : nat → nat → Generator → Head * Generator;
  DiagGaussianHead : nat → nat → R → Generator → Head * Generator;
  linear_lr_lambda : R → R → R → nat → R;
  (* torch.nn *)
  nn_Linear : nat → nat → Generator → Linear * Generator;
  linear_call : Linear → Tensor → Tensor;
  torch_tanh : Tensor → Tensor;
  head_call : Head → Tensor → Dist;
  scalar : Tensor → R;
  (* torch.distributions *)
  entropy : Dist → R;
  log_prob : Dist → Action → R;
  sample : Dist → Generator → Action * Generator;
  (* lagom.utils, lagom.transform *)
  numpify : Action → NdArray;
  explained_variance : list R → list R → R;
  (* what [explained_variance] raises on arrays of different shapes *)
  explained_variance_error : exn;
  (* torch.utils.data: the index order of a shuffling sampler *)
  randperm : nat → Generator → list nat * Generator;
  randperm_Permutation : ∀ n g, (randperm n g).1 ≡ₚ seq 0 n;
}.

(** ** Actor and Critic *)

Section Networks.
Context `{Torch}.

(** [action_head] is an attribute that [__init__] may leave unset. *)
Record Actor : Type := {
  actor_config : Config;
  actor_env : Env;
  actor_feature_layers : list Linear;
  action_head : option Head;
}.

Record Critic : Type := {
  critic_config : Config;
  critic_env : Env;
  critic_feature_layers : list Linear;
  V_head : Linear;
}.

(** [for layer in self.feature_layers: ortho_init(layer, nonlinearity='tanh',
    constant_bias=0.0)] *)
Fixpoint init_feature_layers (layers : list Linear)
    : Py Generator (list Linear) :=
  match layers with
  | [] => mret []
  | layer :: rest =>
      layer' ← step (ortho_init layer (Some "tanh") 1 0);
      rest' ← init_feature_layers rest;
      mret (layer' :: rest')
  end.

(** [config['nn.sizes'][-1]] *)
Definition last_size {St} (sizes : list nat) : Py St nat :=
  match last sizes with
  | Some d => mret d
  | None => raise IndexError
  end.

(** [Actor.__init__] *)
Definition Actor_init (config : Config) (env : Env) : Py Generator Actor :=
  layers ← step (make_fc (flatdim (observation_space env)) (nn_sizes config));
  layers ← init_feature_layers layers;
  feature_dim ← last_size (nn_sizes config);
  head ← match action_space env with
         | Discrete n =>
             h ← step (CategoricalHead feature_dim n); mret (Some h)
         | Box shape =>
             h ← step (DiagGaussianHead feature_dim (flatdim (Box shape))
                         (agent_std0 config));
             mret (Some h)
         | _ => mret None
         end;
  mret {| actor_config := config; actor_env := env;
          actor_feature_layers := layers; action_head := head |}.

(** The feature trunk shared by both [forward] methods:
    [for layer in self.feature_layers: x = torch.tanh(layer(x))] *)
Definition features (layers : list Linear) (x : Tensor) : Tensor :=
  foldl (λ x layer, torch_tanh (linear_call layer x)) x layers.

(** [Actor.forward] on a batch of rows.  Reading the attribute
    [action_head] raises when it was never set. *)
Definition Actor_forward {St} (self : Actor) (x : list Tensor)
    : Py St (list Dist) :=
  let x := map (features (actor_feature_layers self)) x in
  match action_head self with
  | Some head => mret (map (head_call head) x)
  | None => raise (AttributeError "action_head")
  end.

(** [Critic.__init__] *)
Definition Critic_init (config : Config) (env : Env)
    : Py Generator Critic :=
  layers ← step (make_fc (flatdim (observation_space env)) (nn_sizes config));
  layers ← init_feature_layers layers;
  feature_dim ← last_size (nn_sizes config);
  head ← step (nn_Linear feature_dim 1);
  head ← step (ortho_init head None 1 0);
  mret {| critic_config := config; critic_env := env;
          critic_feature_layers := layers; V_head := head |}.

(** [Critic.forward] on a batch of rows; the result has shape [N, 1] and is
    kept as the list of its [N] entries. *)
Definition Critic_forward (self : Critic) (x : list Tensor) : list R :=
  map (λ x, scalar (linear_call (V_head self)
                      (features (critic_feature_layers self) x))) x.
End Networks.

(** ** Optimisation as an interface

    What autograd and Adam do to a module [M] (an [Actor] or a [Critic]).
    [backward loss m] stands for [zero_grad()] followed by
    [loss.backward()]: the gradients of that loss alone, for the parameters
    of [m]. *)

Class Trainable (M : Type) : Type := {
  Grads : Type;
  Moments : Type;
  backward : R → M → Grads;
  clip_grad_norm_ : Grads → R → Grads * R;
  moments0 : Moments;
  adam_update : R → Moments → Grads → M → M * Moments;
}.

(** [optim.Adam]: the learning rate of its parameter group and the running
    moment estimates. *)
Record Adam (M : Type) `{Trainable M} : Type := {
  lr : R;
  adam_state : Moments;
}.
Arguments lr {M _} _.
Arguments adam_state {M _} _.

(** [optim.lr_scheduler.LambdaLR] as built by [linear_lr_scheduler]. *)
Record LambdaLR : Type := {
  base_lr : R;
  sched_N : R;
  sched_min_lr : R;
  last_epoch : nat;
}.

(** An optimizer step writes parameter values; it neither adds nor removes
    a submodule. *)
Class TrainableActor `{Torch} : Type := {
  Actor_Trainable :: Trainable Actor;
  adam_update_action_head : ∀ lr m g (a : Actor),
    is_Some (action_head a) → is_Some (action_head (adam_update lr m g a).1);
}.

(** ** Trajectories

    A trajectory is kept as its list of transitions; each carries the
    auxiliaries cached when the action was chosen. *)

Section Agent.
Context `{Torch} `{!TrainableActor} `{!Trainable Critic}.
Local Open Scope R_scope.

Record Step : Type := {
  step_observation : Tensor;
  step_action : Action;
  step_reward : R;
  info_action_logprob : R;
  info_entropy : R;
  info_V : R;
}.

Record Trajectory : Type := {
  steps : list Step;
  last_observation : Tensor;
  terminal : bool;
}.

(** [len(traj)] *)
Definition len (traj : Trajectory) : nat := length (steps traj).

(** [traj.get_all_info(key)] followed by [torch.cat]; concatenating an
    empty list of tensors is an error. *)
Definition cat_info {St} (key : Step → R) (traj : Trajectory)
    : Py St (list R) :=
  match steps traj with
  | [] => raise (RuntimeError "torch.cat: expected a non-empty list of Tensors")
  | _ => mret (map key (steps traj))
  end.

(** Modelled from the spec: [lagom.metric.bootstrapped_returns] is not in
    the sources.  [Q_t = r_t + gamma * Q_{t+1}], backward from the end,
    seeded with [last_value] for a truncated trajectory and with [0] for
    one that ended in a terminal state. *)
Fixpoint returns_from (gamma : R) (rewards : list R) (seed : R) : list R :=
  match rewards with
  | [] => []
  | r :: rest =>
      let Qs := returns_from gamma rest seed in
      (r + gamma * hd seed Qs) :: Qs
  end.

Definition bootstrapped_returns (gamma : R) (traj : Trajectory)
    (last_V : R) : list R :=
  returns_from gamma (map step_reward (steps traj))
    (if terminal traj then 0 else last_V).

(** Modelled from the spec: [lagom.metric.gae] is not in the sources.
    [delta_t = r_t + gamma * V_{t+1} - V_t] and
    [A_t = delta_t + gamma * lambda * A_{t+1}], backward from the end,
    with the same bootstrap as the returns for the value after the last
    step. *)
Fixpoint gae_from (gamma lam : R) (rewards Vs : list R) (V_end : R)
    : list R :=
  match rewards, Vs with
  | r :: rest, V :: Vs' =>
      let As := gae_from gamma lam rest Vs' V_end in
      let delta := r + gamma * hd V_end Vs' - V in
      (delta + gamma * lam * hd 0 As) :: As
  | _, _ => []
  end.

Definition gae (gamma lam : R) (traj : Trajectory) (Vs : list R)
    (last_V : R) : list R :=
  gae_from gamma lam (map step_reward (steps traj)) Vs
    (if terminal traj then 0 else last_V).

(** ** The agent *)

Record Agent : Type := {
  config : Config;
  env : Env;
  policy : Actor;
  value : Critic;
  total_timestep : nat;
  policy_optimizer : Adam Actor;
  value_optimizer : Adam Critic;
  policy_lr_scheduler : option LambdaLR;   (* unset without the flag *)
}.

Definition set_policy (p : Actor) (a : Agent) : Agent :=
  {| config := config a; env := env a; policy := p; value := value a;
     total_timestep := total_timestep a;
     policy_optimizer := policy_optimizer a;
     value_optimizer := value_optimizer a;
     policy_lr_scheduler := policy_lr_scheduler a |}.
Definition set_value (v : Critic) (a : Agent) : Agent :=
  {| config := config a; env := env a; policy := policy a; value := v;
     total_timestep := total_timestep a;
     policy_optimizer := policy_optimizer a;
     value_optimizer := value_optimizer a;
     policy_lr_scheduler := policy_lr_scheduler a |}.
Definition set_total_timestep (n : nat) (a : Agent) : Agent :=
  {| config := config a; env := env a; policy := policy a; value := value a;
     total_timestep := n;
     policy_optimizer := policy_optimizer a;
     value_optimizer := value_optimizer a;
     policy_lr_scheduler := policy_lr_scheduler a |}.
Definition set_policy_optimizer (o : Adam Actor) (a : Agent) : Agent :=
  {| config := config a; env := env a; policy := policy a; value := value a;
     total_timestep := total_timestep a;
     policy_optimizer := o;
     value_optimizer := value_optimizer a;
     policy_lr_scheduler := policy_lr_scheduler a |}.
Definition set_value_optimizer (o : Adam Critic) (a : Agent) : Agent :=
  {| config := config a; env := env a; policy := policy a; value := value a;
     total_timestep := total_timestep a;
     policy_optimizer := policy_optimizer a;
     value_optimizer := o;
     policy_lr_scheduler := policy_lr_scheduler a |}.
Definition set_policy_lr_scheduler (s : option LambdaLR) (a : Agent)
    : Agent :=
  {| config := config a; env := env a; policy := policy a; value := value a;
     total_timestep := total_timestep a;
     policy_optimizer := policy_optimizer a;
     value_optimizer := value_optimizer a;
     policy_lr_scheduler := s |}.

(** The state a method runs in: the agent object and the state of the
    global random generator. *)
Record World : Type := {
  self : Agent;
  torch_rng : Generator;
}.

Definition on_self (f : Agent → Agent) (w : World) : World :=
  {| self := f (self w); torch_rng := torch_rng w |}.
Definition set_rng (g : Generator) (w : World) : World :=
  {| self := self w; torch_rng := g |}.

(** Use of the random generator from a method. *)
Definition random {A} (m : Py Generator A) : Py World A :=
  zoom torch_rng set_rng m.

(** [linear_lr_scheduler(optimizer, N, min_lr)]: the multiplier is
    [linear_lr_lambda N min_lr initial_lr n]; constructing the scheduler
    sets the optimizer's rate for epoch 0. *)
Definition scheduled_lr (s : LambdaLR) (n : nat) : R :=
  base_lr s * linear_lr_lambda (sched_N s) (sched_min_lr s) (base_lr s) n.

Definition linear_lr_scheduler (optimizer : Adam Actor) (N min_lr : R)
    : LambdaLR * Adam Actor :=
  let s := {| base_lr := lr optimizer; sched_N := N;
              sched_min_lr := min_lr; last_epoch := 0 |} in
  (s, {| lr := scheduled_lr s 0; adam_state := adam_state optimizer |}).

(** [Agent.__init__] *)
Definition Agent_init (config : Config) (env : Env) : Py Generator Agent :=
  policy ← Actor_init config env;
  value ← Critic_init config env;
  let total_timestep := 0%nat in
  let policy_optimizer : Adam Actor :=
    {| lr := agent_policy_lr config; adam_state := moments0 |} in
  let value_optimizer : Adam Critic :=
    {| lr := agent_value_lr config; adam_state := moments0 |} in
  let self :=
    {| config := config; env := env; policy := policy; value := value;
       total_timestep := total_timestep;
       policy_optimizer := policy_optimizer;
       value_optimizer := value_optimizer;
       policy_lr_scheduler := None |} in
  if agent_use_lr_scheduler config then
    let '(s, o) := linear_lr_scheduler policy_optimizer
                     (train_timestep config) 1e-8 in
    mret (set_policy_lr_scheduler (Some s) (set_policy_optimizer o self))
  else mret self.

(** Reading [self.policy_lr_scheduler]. *)
Definition get_policy_lr_scheduler : Py World LambdaLR := λ w,
  match policy_lr_scheduler (self w) with
  | Some s => (Ok s, w)
  | None => (Raise (AttributeError "policy_lr_scheduler"), w)
  end.

(** [self.policy_lr_scheduler.step(epoch)]: records the epoch and writes
    the rate into the optimizer the scheduler was built on. *)
Definition LambdaLR_step (epoch : nat) : Py World unit :=
  s ← get_policy_lr_scheduler;
  let s' := {| base_lr := base_lr s; sched_N := sched_N s;
               sched_min_lr := sched_min_lr s; last_epoch := epoch |} in
  modify (on_self (λ a,
    set_policy_lr_scheduler (Some s')
      (set_policy_optimizer
         {| lr := scheduled_lr s' epoch;
            adam_state := adam_state (policy_optimizer a) |} a))).

(** [self.policy_lr_scheduler.get_lr()]: one rate per parameter group. *)
Definition LambdaLR_get_lr : Py World (list R) :=
  s ← get_policy_lr_scheduler;
  mret [scheduled_lr s (last_epoch s)].

(** [self.policy_optimizer.step()] and [self.value_optimizer.step()] *)
Definition policy_optimizer_step (grads : @Grads Actor _)
    : Py World unit :=
  modify (on_self (λ a,
    let o := policy_optimizer a in
    let '(p, m) := adam_update (lr o) (adam_state o) grads (policy a) in
    set_policy_optimizer {| lr := lr o; adam_state := m |}
      (set_policy p a))).

Definition value_optimizer_step (grads : @Grads Critic _)
    : Py World unit :=
  modify (on_self (λ a,
    let o := value_optimizer a in
    let '(v, m) := adam_update (lr o) (adam_state o) grads (value a) in
    set_value_optimizer {| lr := lr o; adam_state := m |}
      (set_value v a))).

(** *** choose_action *)

(** The values stored in the mapping that [choose_action] returns. *)
Inductive Value : Type :=
| VDist (d : list Dist)
| VTensor (t : list R)
| VAction (a : list Action)
| VNdArray (a : list NdArray).

(** [out[key]] *)
Definition getitem {St V} (out : gmap string V) (key : string) : Py St V :=
  match out !! key with
  | Some v => mret v
  | None => raise (KeyError key)
  end.

Definition as_dist {St} (v : Value) : Py St (list Dist) :=
  match v with VDist d => mret d | _ => raise TypeError end.
Definition as_tensor {St} (v : Value) : Py St (list R) :=
  match v with VTensor t => mret t | _ => raise TypeError end.

(** [action_dist.sample()] draws row by row from the global generator. *)
Definition sample_batch (action_dist : list Dist)
    : Py Generator (list Action) :=
  mapM (λ d, step (sample d)) action_dist.

Definition choose_action (obs : list Tensor)
    : Py World (gmap string Value) :=
  let out : gmap string Value := ∅ in
  policy ← gets (λ w, policy (self w));
  action_dist ← Actor_forward policy obs;
  let out := <["action_dist" := VDist action_dist]> out in
  let out := <["entropy" := VTensor (map entropy action_dist)]> out in
  action ← random (sample_batch action_dist);
  let out := <["action" := VAction action]> out in
  let out := <["raw_action" := VNdArray (map numpify action)]> out in
  let out := <["action_logprob" :=
                 VTensor (zip_with log_prob action_dist action)]> out in
  value ← gets (λ w, value (self w));
  let V := Critic_forward value obs in
  let out := <["V" := VTensor V]> out in
  mret out.
(** *** learn_one_update *)

(** One row of a minibatch.  The [DataLoader] collates rows, so the seven
    tensors that [learn_one_update] unpacks from [data] share their first
    dimension; the model keeps the rows and reads the tensors off them. *)
Record Sample : Type := {
  observation : Tensor;
  old_action : Action;
  old_logprob : R;
  old_entropy : R;
  old_V : R;
  old_Q : R;
  old_A : R;
}.

(** [x.squeeze().ndimension()] for a tensor with [N] entries whose other
    dimensions have size 1: the squeeze also removes a first dimension of
    size 1. *)
Definition squeezed_ndimension (x : list R) : nat :=
  if decide (length x = 1%nat) then 0%nat else 1%nat.

(** [ev(y_true=numpify(old_Qs), y_pred=numpify(Vs))].  [Vs] has been
    squeezed: for a minibatch of one row it is a 0-d array against the 1-d
    [old_Qs], and [explained_variance] rejects arrays of different shapes.
    (In the element-wise operations before it, broadcasting against an old
    tensor restores the shape [1].) *)
Definition ev {St} (y_true y_pred : list R) : Py St R :=
  if decide (squeezed_ndimension y_pred = 1%nat)
  then mret (explained_variance y_true y_pred)
  else raise explained_variance_error.

(** Lines 112-153.  The three [.squeeze()] of lines 117-119 leave tensors
    of shape [N] for a minibatch of [N >= 2] rows: the lists below.  For
    one row they leave 0-d tensors; the arithmetic of lines 121-137
    broadcasts them against the old tensors of shape [1], so the losses
    and both optimizer steps are those of the lists, and the lost
    dimension shows only where [Vs] is handed to [ev], at line 150. *)
Definition learn_one_update (data : list Sample)
    : Py World (gmap string R) :=
  let observations := map observation data in
  let old_actions := map old_action data in
  let old_logprobs := map old_logprob data in
  let old_entropies := map old_entropy data in
  let old_Vs := map old_V data in
  let old_Qs := map old_Q data in
  let old_As := map old_A data in

  out ← choose_action observations;
  action_dist ← getitem out "action_dist" ≫= as_dist;
  let logprobs := zip_with log_prob action_dist old_actions in
  entropies ← getitem out "entropy" ≫= as_tensor;
  Vs ← getitem out "V" ≫= as_tensor;

  let ratio := texp (tsub logprobs old_logprobs) in
  eps ← gets (λ w, agent_clip_range (config (self w)));
  let policy_loss :=
    tneg (tmin (tmul ratio old_As)
               (tmul (tclamp ratio (1 - eps) (1 + eps)) old_As)) in
  let policy_loss := mean policy_loss in

  policy ← gets (λ w, policy (self w));
  let grads := backward policy_loss policy in
  max_grad_norm ← gets (λ w, agent_max_grad_norm (config (self w)));
  let '(grads, policy_grad_norm) := clip_grad_norm_ grads max_grad_norm in
  use_lr_scheduler ← gets (λ w, agent_use_lr_scheduler (config (self w)));
  (if use_lr_scheduler : bool then
     total_timestep ← gets (λ w, total_timestep (self w));
     LambdaLR_step total_timestep
   else mret tt);;
  policy_optimizer_step grads;;

  let clipped_Vs := tadd old_Vs (tclamp (tsub Vs old_Vs) (- eps) eps) in
  let value_loss := tmax (mse_loss Vs old_Qs) (mse_loss clipped_Vs old_Qs) in
  let value_loss := mean value_loss in

  value ← gets (λ w, value (self w));
  let grads := backward value_loss value in
  max_grad_norm ← gets (λ w, agent_max_grad_norm (config (self w)));
  let '(grads, value_grad_norm) := clip_grad_norm_ grads max_grad_norm in
  value_optimizer_step grads;;

  let out : gmap string R := ∅ in
  let out := <["policy_grad_norm" := policy_grad_norm]> out in
  let out := <["value_grad_norm" := value_grad_norm]> out in
  let out := <["policy_loss" := mean [policy_loss]]> out in
  let out := <["policy_entropy" := mean entropies]> out in
  let out := <["value_loss" := mean [value_loss]]> out in
  explained_variance ← ev old_Qs Vs;
  let out := <["explained_variance" := explained_variance]> out in
  let out := <["approx_kl" := mean (tsub old_logprobs logprobs)]> out in
  let out := <["clip_frac" :=
                 mean (map (outside (1 - eps) (1 + eps)) ratio)]> out in
  mret out.

(** *** The minibatch sampler *)

(** Modelled from the spec: [baselines.ppo.dataset.Dataset] is not in the
    sources.  It holds the equal-length flattened tensors of the batch,
    indexed by global timestep: the observations and actions of every
    trajectory in order, and the five metric tensors it is given. *)
Record Dataset : Type := {
  ds_observations : list Tensor;
  ds_actions : list Action;
  ds_logprobs : list R;
  ds_entropies : list R;
  ds_Vs : list R;
  ds_Qs : list R;
  ds_As : list R;
}.

Definition Dataset_init (D : list Trajectory)
    (logprobs entropies Vs Qs As : list R) : Dataset :=
  {| ds_observations := concat (map (λ traj, map step_observation (steps traj)) D);
     ds_actions := concat (map (λ traj, map step_action (steps traj)) D);
     ds_logprobs := logprobs; ds_entropies := entropies; ds_Vs := Vs;
     ds_Qs := Qs; ds_As := As |}.

Definition Dataset_len (ds : Dataset) : nat := length (ds_observations ds).

Definition Dataset_getitem {St} (ds : Dataset) (i : nat) : Py St Sample :=
  let row : option Sample :=
    o ← ds_observations ds !! i; a ← ds_actions ds !! i;
    lp ← ds_logprobs ds !! i; e ← ds_entropies ds !! i;
    V ← ds_Vs ds !! i; Q ← ds_Qs ds !! i; A ← ds_As ds !! i;
    Some {| observation := o; old_action := a; old_logprob := lp;
            old_entropy := e; old_V := V; old_Q := Q; old_A := A |} in
  match row with
  | Some r => mret r
  | None => raise IndexError
  end.

(** Consecutive groups of [batch_size] indices; the last group may be
    shorter ([drop_last=False]). *)
Fixpoint batched_fuel (fuel batch_size : nat) (idx : list nat)
    : list (list nat) :=
  match fuel, idx with
  | S fuel', _ :: _ =>
      take batch_size idx :: batched_fuel fuel' batch_size (drop batch_size idx)
  | _, _ => []
  end.
Definition batched (batch_size : nat) (idx : list nat) : list (list nat) :=
  batched_fuel (length idx) batch_size idx.

(** Modelled from the spec: [torch.utils.data.DataLoader] with
    [shuffle=True], a finite sequence of shuffled minibatches that is
    restarted for every epoch and covers the dataset once per epoch. *)
Record DataLoader : Type := {
  dl_dataset : Dataset;
  dl_batch_size : nat;
}.

Definition DataLoader_init {St} (dataset : Dataset) (batch_size : nat)
    : Py St DataLoader :=
  match batch_size with
  | O => raise (ValueError "batch_size should be a positive integer value")
  | S _ => mret {| dl_dataset := dataset; dl_batch_size := batch_size |}
  end.

(** [[body(data) for data in dataloader]]: a fresh permutation is drawn
    when the iteration starts; each minibatch is fetched just before the
    body runs on it. *)
Definition for_data_in {A} (dataloader : DataLoader)
    (body : list Sample → Py World A) : Py World (list A) :=
  perm ← random (step (randperm (Dataset_len (dl_dataset dataloader))));
  mapM (λ idx, data ← mapM (Dataset_getitem (dl_dataset dataloader)) idx;
               body data)
       (batched (dl_batch_size dataloader) perm).

(** *** learn *)

(** [torch.cat(x)] and [np.concatenate(x)] reject an empty sequence. *)
Definition torch_cat {St A} (x : list (list A)) : Py St (list A) :=
  match x with
  | [] => raise (RuntimeError "torch.cat: expected a non-empty list of Tensors")
  | _ => mret (concat x)
  end.
Definition np_concatenate {St A} (x : list (list A)) : Py St (list A) :=
  match x with
  | [] => raise (ValueError "need at least one array to concatenate")
  | _ => mret (concat x)
  end.

Definition assert {St} (b : bool) : Py St unit :=
  if b then mret tt else raise AssertionError.

(** Reading a local variable that may not have been assigned. *)
Definition read_local {St A} (name : string) (v : option A) : Py St A :=
  match v with
  | Some a => mret a
  | None => raise (UnboundLocalError name)
  end.

(** [for x in xs: var = body(x)], for a local variable [var]. *)
Fixpoint for_assign {St A B} (xs : list A) (body : A → Py St B)
    (var : option B) : Py St (option B) :=
  match xs with
  | [] => mret var
  | x :: xs' => v ← body x; for_assign xs' body (Some v)
  end.

(** [range(n)] *)
Definition range (n : Z) : list nat := seq 0 (Z.to_nat n).

(** [[item[key] for item in logs]] *)
Definition column {St} (key : string) (logs : list (gmap string R))
    : Py St (list R) :=
  mapM (λ item, getitem item key) logs.

(** The values of the mapping that [learn] returns: [np.mean] gives a
    float, [get_lr()] a list of floats. *)
Inductive Diag : Type :=
| DFloat (x : R)
| DList (x : list R).

(** Lines 157-177 of [learn]: the metrics of the batch, flattened. *)
Definition learn_dataset (D : list Trajectory) : Py World Dataset :=
  logprobs ← mapM (cat_info info_action_logprob) D;
  entropies ← mapM (cat_info info_entropy) D;
  Vs ← mapM (cat_info info_V) D;

  last_observations ← np_concatenate (map (λ traj, [last_observation traj]) D);
  value ← gets (λ w, value (self w));
  let last_Vs := Critic_forward value last_observations in
  gamma ← gets (λ w, agent_gamma (config (self w)));
  gae_lambda ← gets (λ w, agent_gae_lambda (config (self w)));
  let Qs := zip_with (bootstrapped_returns gamma) D last_Vs in
  let As := zip_with (λ '(traj, V) last_V, gae gamma gae_lambda traj V last_V)
              (zip D Vs) last_Vs in

  logprobs ← torch_cat logprobs;
  entropies ← torch_cat entropies;
  Vs ← torch_cat Vs;
  Qs ← np_concatenate Qs;
  As ← np_concatenate As;
  standardize_adv ← gets (λ w, agent_standardize_adv (config (self w)));
  let As := if standardize_adv : bool
            then map (λ a, (a - mean As) / (std As + 1e-8)) As
            else As in

  assert (forallb (λ n, bool_decide (n = 1%nat))
            [squeezed_ndimension logprobs; squeezed_ndimension entropies;
             squeezed_ndimension Vs; 1%nat; 1%nat]);;

  mret (Dataset_init D logprobs entropies Vs Qs As).

(** One pass of the epoch loop's body. *)
Definition learn_epoch (dataloader : DataLoader)
    : Py World (list (gmap string R)) :=
  for_data_in dataloader learn_one_update.

Definition learn (D : list Trajectory) : Py World (gmap string Diag) :=
  dataset ← learn_dataset D;
  batch_size ← gets (λ w, train_batch_size (config (self w)));
  dataloader ← DataLoader_init dataset batch_size;
  num_epochs ← gets (λ w, train_num_epochs (config (self w)));
  logs ← for_assign (range num_epochs) (λ epoch, learn_epoch dataloader) None;

  modify (on_self (λ a,
    set_total_timestep (total_timestep a + sum_list (map len D)) a));;
  let out : gmap string Diag := ∅ in
  use_lr_scheduler ← gets (λ w, agent_use_lr_scheduler (config (self w)));
  out ← (if use_lr_scheduler : bool then
           current_lr ← LambdaLR_get_lr;
           mret (<["current_lr" := DList current_lr]> out)
         else mret out);
  x ← read_local "logs" logs ≫= column "policy_grad_norm";
  let out := <["policy_grad_norm" := DFloat (mean x)]> out in
  x ← read_local "logs" logs ≫= column "value_grad_norm";
  let out := <["value_grad_norm" := DFloat (mean x)]> out in
  x ← read_local "logs" logs ≫= column "policy_loss";
  let out := <["policy_loss" := DFloat (mean x)]> out in
  x ← read_local "logs" logs ≫= column "policy_entropy";
  let out := <["policy_entropy" := DFloat (mean x)]> out in
  x ← read_local "logs" logs ≫= column "value_loss";
  let out := <["value_loss" := DFloat (mean x)]> out in
  x ← read_local "logs" logs ≫= column "explained_variance";
  let out := <["explained_variance" := DFloat (mean x)]> out in
  x ← read_local "logs" logs ≫= column "approx_kl";
  let out := <["approx_kl" := DFloat (mean x)]> out in
  x ← read_local "logs" logs ≫= column "clip_frac";
  let out := <["clip_frac" := DFloat (mean x)]> out in
  mret out.

(** *** Vocabulary of the properties *)

(** The agent object is the same before and after. *)
Definition same_self : relation World := λ w w', self w' = self w.

(** The action distribution of the current policy on a batch of rows. *)
Definition policy_dist (a : Actor) (h : Head) (obs : list Tensor) : list Dist :=
  map (head_call h) (map (features (actor_feature_layers a)) obs).

Definition action_out (dist : list Dist) (action : list Action) (V : list R)
    : gmap string Value :=
  <["V" := VTensor V]>
    (<["action_logprob" := VTensor (zip_with log_prob dist action)]>
       (<["raw_action" := VNdArray (map numpify action)]>
          (<["action" := VAction action]>
             (<["entropy" := VTensor (map entropy dist)]>
                (<["action_dist" := VDist dist]> ∅))))).

(** What an update needs of the agent: the policy has its action head,
    and the scheduler exists when the configuration asks for it. *)
Definition ready (w : World) : Prop :=
  is_Some (action_head (policy (self w))) ∧
  (agent_use_lr_scheduler (config (self w)) = true →
   is_Some (policy_lr_scheduler (self w))).

(** The quantities an update recomputes from the current networks. *)
Definition new_logprobs (w : World) (h : Head) (data : list Sample) : list R :=
  zip_with log_prob
    (policy_dist (policy (self w)) h (map observation data))
    (map old_action data).
Definition new_Vs (w : World) (data : list Sample) : list R :=
  Critic_forward (value (self w)) (map observation data).
Definition ratios (w : World) (h : Head) (data : list Sample) : list R :=
  texp (tsub (new_logprobs w h data) (map old_logprob data)).

Definition update_keys : gset string :=
  {[ "policy_grad_norm"; "value_grad_norm"; "policy_loss"; "policy_entropy";
     "value_loss"; "explained_variance"; "approx_kl"; "clip_frac" ]}.

(** The counter and the configuration are the same before and after. *)
Definition same_step : relation World := λ w w',
  total_timestep (self w') = total_timestep (self w) ∧
  config (self w') = config (self w).

(** All seven tensors of a dataset have its length. *)
Definition ds_wf (ds : Dataset) : Prop :=
  length (ds_actions ds) = Dataset_len ds ∧
  length (ds_logprobs ds) = Dataset_len ds ∧
  length (ds_entropies ds) = Dataset_len ds ∧
  length (ds_Vs ds) = Dataset_len ds ∧
  length (ds_Qs ds) = Dataset_len ds ∧
  length (ds_As ds) = Dataset_len ds.

(** The batches [learn] accepts: at least one trajectory, none of them
    empty, and more than one timestep in total (a single timestep is
    squeezed to a 0-d tensor and fails the assertion). *)
Definition well_formed_batch (D : list Trajectory) : Prop :=
  D ≠ [] ∧ Forall (λ traj, steps traj ≠ []) D ∧ sum_list (map len D) ≠ 1%nat.

Definition flat_info (key : Step → R) (D : list Trajectory) : list (list R) :=
  map (λ traj, map key (steps traj)) D.

Definition last_values (w : World) (D : list Trajectory) : list R :=
  Critic_forward (value (self w)) (map last_observation D).

(** The advantages of the batch before any standardization: the GAE of
    every trajectory, concatenated in trajectory order. *)
Definition batch_advantages (w : World) (D : list Trajectory) : list R :=
  concat (zip_with
            (λ '(traj, V) last_V,
               gae (agent_gamma (config (self w)))
                   (agent_gae_lambda (config (self w))) traj V last_V)
            (zip D (flat_info info_V D)) (last_values w D)).


(** Lines 183-194 of [learn]: the mapping built from [logs]. *)
Definition learn_report (logs : option (list (gmap string R)))
    : Py World (gmap string Diag) :=
  let out : gmap string Diag := ∅ in
  use_lr_scheduler ← gets (λ w, agent_use_lr_scheduler (config (self w)));
  out ← (if use_lr_scheduler : bool then
           current_lr ← LambdaLR_get_lr;
           mret (<["current_lr" := DList current_lr]> out)
         else mret out);
  x ← read_local "logs" logs ≫= column "policy_grad_norm";
  let out := <["policy_grad_norm" := DFloat (mean x)]> out in
  x ← read_local "logs" logs ≫= column "value_grad_norm";
  let out := <["value_grad_norm" := DFloat (mean x)]> out in
  x ← read_local "logs" logs ≫= column "policy_loss";
  let out := <["policy_loss" := DFloat (mean x)]> out in
  x ← read_local "logs" logs ≫= column "policy_entropy";
  let out := <["policy_entropy" := DFloat (mean x)]> out in
  x ← read_local "logs" logs ≫= column "value_loss";
  let out := <["value_loss" := DFloat (mean x)]> out in
  x ← read_local "logs" logs ≫= column "explained_variance";
  let out := <["explained_variance" := DFloat (mean x)]> out in
  x ← read_local "logs" logs ≫= column "approx_kl";
  let out := <["approx_kl" := DFloat (mean x)]> out in
  x ← read_local "logs" logs ≫= column "clip_frac";
  let out := <["clip_frac" := DFloat (mean x)]> out in
  mret out.

(** The action spaces for which [Actor.__init__] builds a head. *)
Definition supported_space (space : Space) : bool :=
  match space with
  | Discrete _ | Box _ => true
  | _ => false
  end.

(** The scheduler attribute holds a scheduler built on the same base rate
    and horizon as [s0], last stepped to [epoch]. *)
Definition scheduler_at (s0 : LambdaLR) (epoch : nat) (w : World) : Prop :=
  ∃ s, policy_lr_scheduler (self w) = Some s ∧
       base_lr s = base_lr s0 ∧ sched_N s = sched_N s0 ∧
       sched_min_lr s = sched_min_lr s0 ∧ last_epoch s = epoch.

(** Readiness is kept from the first state to the second. *)
Definition keeps_ready : relation World := λ w w', ready w → ready w'.

(** No minibatch of an epoch over [n] timesteps has exactly one row: the
    minibatches have [batch_size] rows, and the last one the remainder. *)
Definition single_row_free (batch_size n : nat) : Prop :=
  batch_size ≠ 1%nat ∧ n `mod` batch_size ≠ 1%nat.

(** The PPO clipped surrogate of one timestep. *)
Definition clipped_surrogate (eps new_logprob old_logprob A : R) : R :=
  let ratio := exp (new_logprob - old_logprob) in
  Rmin (ratio * A) (clamp ratio (1 - eps) (1 + eps) * A).

(** The clipped squared value error of one timestep. *)
Definition clipped_value_error (eps V old_V Q : R) : R :=
  Rmax ((V - Q) ^ 2) ((clamp (V - old_V) (- eps) eps + old_V - Q) ^ 2).

(** The diagnostics of every update that the epoch loop of [learn(D)]
    invokes, one list per epoch, in order. *)
Definition learn_invocations (D : list Trajectory)
    : Py World (list (list (gmap string R))) :=
  dataset ← learn_dataset D;
  batch_size ← gets (λ w, train_batch_size (config (self w)));
  dataloader ← DataLoader_init dataset batch_size;
  num_epochs ← gets (λ w, train_num_epochs (config (self w)));
  mapM (λ epoch, learn_epoch dataloader) (range num_epochs).

(** One diagnostic of every invocation, epoch after epoch. *)
Definition invocation_column (key : string) (D : list Trajectory)
    (w : World) : list R :=
  match (learn_invocations D w).1 with
  | Ok epochs => omap (λ item : gmap string R, item !! key) (concat epochs)
  | Raise _ => []
  end.

(** One entry of the mapping that [learn(D)] returns. *)
Definition diag (key : string) (D : list Trajectory) (w : World)
    : option Diag :=
  match (learn D w).1 with
  | Ok out => out !! key
  | Raise _ => None
  end.
End Agent.

(** ** A small backend

    A concrete instance of the interfaces, on which the agent runs on
    concrete inputs: rows and layers are reals, a layer adds its parameter
    to its input, the distribution of a row is its log-probability, the
    policy optimizer lowers every policy parameter by 1, the sampler keeps
    the order of the dataset. *)

Module Toy.
Local Open Scope R_scope.

#[export] Instance torch : Torch := {|
  Tensor := R; Action := unit; NdArray := unit; Dist := R; Linear := R;
  Head := unit; Generator := unit;
  flatdim _ := 1%nat;
  make_fc _ sizes g := (map (λ _, 0) sizes, g);
  ortho_init layer _ _ _ g := (layer, g);
  CategoricalHead _ _ g := (tt, g);
  DiagGaussianHead _ _ _ g := (tt, g);
  linear_lr_lambda _ _ _ _ := 1;
  nn_Linear _ _ g := (0, g);
  linear_call layer x := layer + x;
  torch_tanh x := x;
  head_call _ x := x;
  scalar x := x;
  entropy _ := 0;
  log_prob d _ := d;
  sample _ g := (tt, g);
  numpify a := a;
  explained_variance _ _ := 0;
  explained_variance_error := AssertionError;
  randperm n g := (seq 0 n, g);
  randperm_Permutation n g := reflexivity (seq 0 n);
|}.

Definition descend (a : Actor) : Actor :=
  {| actor_config := actor_config a; actor_env := actor_env a;
     actor_feature_layers := map (λ l, l - 1) (actor_feature_layers a);
     action_head := action_head a |}.

#[export] Instance actor_trainable : Trainable Actor := {|
  Grads := unit; Moments := unit;
  backward _ _ := tt;
  clip_grad_norm_ g _ := (g, 0);
  moments0 := tt;
  adam_update _ m _ a := (descend a, m);
|}.

#[export] Instance trainable_actor : TrainableActor := {|
  Actor_Trainable := actor_trainable;
  adam_update_action_head _ _ _ _ Hhead := Hhead;
|}.

#[export] Instance critic_trainable : Trainable Critic := {|
  Grads := unit; Moments := unit;
  backward _ _ := tt;
  clip_grad_norm_ g _ := (g, 0);
  moments0 := tt;
  adam_update _ m _ c := (c, m);
|}.

Definition config0 (epochs : Z) (sched standardize : bool) : Config :=
  {| nn_sizes := [1%nat]; agent_policy_lr := 1; agent_value_lr := 1;
     agent_use_lr_scheduler := sched; agent_gamma := 1;
     agent_gae_lambda := 0; agent_std0 := 1;
     agent_standardize_adv := standardize; agent_max_grad_norm := 1;
     agent_clip_range := 1; train_timestep := 1; train_batch_size := 2;
     train_num_epochs := epochs |}.

Definition env0 : Env :=
  {| observation_space := Box [1%nat]; action_space := Discrete 2 |}.

Definition env_multi_discrete : Env :=
  {| observation_space := Box [1%nat];
     action_space := MultiDiscrete [2%nat; 2%nat] |}.

(** The agent that [Agent_init (config0 ..) env0] constructs. *)
Definition agent0 (epochs : Z) (sched standardize : bool) : Agent :=
  let config := config0 epochs sched standardize in
  {| config := config; env := env0;
     policy := {| actor_config := config; actor_env := env0;
                  actor_feature_layers := [0]; action_head := Some tt |};
     value := {| critic_config := config; critic_env := env0;
                 critic_feature_layers := [0]; V_head := 0 |};
     total_timestep := 0;
     policy_optimizer :=
       @Build_Adam Actor _ (if sched then 1 * 1 else 1) tt;
     value_optimizer := @Build_Adam Critic _ 1 tt;
     policy_lr_scheduler :=
       if sched
       then Some {| base_lr := 1; sched_N := 1; sched_min_lr := 1e-8;
                    last_epoch := 0 |}
       else None |}.

Definition world0 (epochs : Z) (sched standardize : bool) : World :=
  {| self := agent0 epochs sched standardize; torch_rng := tt |}.

(** A terminal trajectory of two steps with reward 1, collected by
    [agent0]: its cached log-probabilities are those of the policy. *)
Definition step0 : Step :=
  {| step_observation := 0; step_action := tt; step_reward := 1;
     info_action_logprob := 0 + 0; info_entropy := 0; info_V := 0 |}.

Definition traj0 : Trajectory :=
  {| steps := [step0; step0]; last_observation := 0; terminal := true |}.

Definition batch0 : list Trajectory := [traj0].

Definition sample0 : Sample :=
  {| observation := 0; old_action := tt; old_logprob := 0 + 0;
     old_entropy := 0; old_V := 0; old_Q := 1; old_A := 1 |}.

Definition data0 : list Sample := [sample0; sample0].

Definition obs0 : list Tensor := [0; 0].

Definition config_no_layers : Config :=
  {| nn_sizes := []; agent_policy_lr := 1; agent_value_lr := 1;
     agent_use_lr_scheduler := false; agent_gamma := 1;
     agent_gae_lambda := 0; agent_std0 := 1;
     agent_standardize_adv := false; agent_max_grad_norm := 1;
     agent_clip_range := 1; train_timestep := 1; train_batch_size := 2;
     train_num_epochs := 1 |}.

(** The agent that [Agent_init (config0 ..) env_multi_discrete]
    constructs: its policy has no action head. *)
Definition agent_no_head (epochs : Z) : Agent :=
  let config := config0 epochs false false in
  {| config := config; env := env_multi_discrete;
     policy := {| actor_config := config; actor_env := env_multi_discrete;
                  actor_feature_layers := [0]; action_head := None |};
     value := {| critic_config := config; critic_env := env_multi_discrete;
                 critic_feature_layers := [0]; V_head := 0 |};
     total_timestep := 0;
     policy_optimizer := @Build_Adam Actor _ 1 tt;
     value_optimizer := @Build_Adam Critic _ 1 tt;
     policy_lr_scheduler := None |}.

Definition world_no_head (epochs : Z) : World :=
  {| self := agent_no_head epochs; torch_rng := tt |}.

(** The scheduler of [agent0] when scheduling is enabled. *)
Definition scheduler0 : LambdaLR :=
  {| base_lr := 1; sched_N := 1; sched_min_lr := 1e-8; last_epoch := 0 |}.

Definition traj_one_step : Trajectory :=
  {| steps := [step0]; last_observation := 0; terminal := true |}.

Definition traj_no_step : Trajectory :=
  {| steps := []; last_observation := 0; terminal := true |}.
End Toy.

(** * Properties

    ** Reasoning about [Py] computations *)

Section PyFacts.
Context {St : Type}.

Lemma bind_run {A B} (m : Py St A) (f : A → Py St B) s :
  (m ≫= f) s =
  match m s with (Ok a, s') => f a s' | (Raise e, s') => (Raise e, s') end.
Proof. reflexivity. Qed.

Lemma bind_ok {A B} (m : Py St A) (f : A → Py St B) s a s' :
  m s = (Ok a, s') → (m ≫= f) s = f a s'.
Proof. intros Hm. rewrite bind_run, Hm. reflexivity. Qed.

Lemma bind_raise {A B} (m : Py St A) (f : A → Py St B) s e s' :
  m s = (Raise e, s') → (m ≫= f) s = (Raise e, s').
Proof. intros Hm. rewrite bind_run, Hm. reflexivity. Qed.

Lemma bind_inv {A B} (m : Py St A) (f : A → Py St B) s b s2 :
  (m ≫= f) s = (Ok b, s2) →
  ∃ a s1, m s = (Ok a, s1) ∧ f a s1 = (Ok b, s2).
Proof.
  rewrite bind_run. destruct (m s) as [[a|e] s1]; [eauto | discriminate].
Qed.

Lemma mapM_cons {A B} (f : A → Py St B) a l :
  mapM f (a :: l) = (b ← f a; bs ← mapM f l; mret (b :: bs)).
Proof. reflexivity. Qed.

Section Frame.
Context (R : relation St) `{!PreOrder R}.

Lemma preserves_ret {A} (a : A) : preserves R (mret a).
Proof. intros s. simpl. reflexivity. Qed.

Lemma preserves_raise {A} e : preserves R (raise e : Py St A).
Proof. intros s. simpl. reflexivity. Qed.

Lemma preserves_gets {A} (f : St → A) : preserves R (gets f).
Proof. intros s. simpl. reflexivity. Qed.

Lemma preserves_modify (f : St → St) :
  (∀ s, R s (f s)) → preserves R (modify f).
Proof. intros Hf s. apply Hf. Qed.

Lemma preserves_bind {A B} (m : Py St A) (f : A → Py St B) :
  preserves R m → (∀ a, preserves R (f a)) → preserves R (m ≫= f).
Proof.
  intros Hm Hf s. rewrite bind_run. specialize (Hm s).
  destruct (m s) as [[a|e] s1]; simpl in *; [|done].
  etrans; [exact Hm | apply Hf].
Qed.

Lemma preserves_mapM {A B} (f : A → Py St B) (l : list A) :
  (∀ a, preserves R (f a)) → preserves R (mapM f l).
Proof.
  intros Hf. induction l as [|a l IH].
  - apply preserves_ret.
  - rewrite mapM_cons. apply preserves_bind; [apply Hf | intros b].
    apply preserves_bind; [apply IH | intros bs]. apply preserves_ret.
Qed.

Lemma preserves_for_assign {A B} (xs : list A) (body : A → Py St B) var :
  (∀ a, preserves R (body a)) → preserves R (for_assign xs body var).
Proof.
  intros Hb. revert var. induction xs as [|x xs IH]; intros var; simpl.
  - apply preserves_ret.
  - apply preserves_bind; [apply Hb | intros v; apply IH].
Qed.

Lemma preserves_getitem {V} (out : gmap string V) key :
  preserves R (getitem out key).
Proof.
  unfold getitem. destruct (out !! key); [apply preserves_ret | apply preserves_raise].
Qed.

Lemma preserves_read_local {A} name (v : option A) :
  preserves R (read_local name v).
Proof. destruct v; [apply preserves_ret | apply preserves_raise]. Qed.

Lemma preserves_assert b : preserves R (assert b).
Proof. destruct b; [apply preserves_ret | apply preserves_raise]. Qed.
End Frame.

Lemma mapM_step_ok {A B} (f : A → St → B * St) (l : list A) (t : St) :
  ∃ bs t', mapM (λ a, step (f a)) l t = (Ok bs, t') ∧ length bs = length l.
Proof.
  revert t. induction l as [|a l IH]; intros t.
  - by eexists _, _.
  - rewrite mapM_cons, bind_run. unfold step at 1. destruct (f a t) as [b t1].
    destruct (IH t1) as (bs & t2 & Hbs & Hlen).
    rewrite bind_run, Hbs. eexists _, _. split; [done|]. simpl. lia.
Qed.

Lemma mapM_total {A B} (I : St → Prop) (Φ : B → Prop) (f : A → Py St B) l s :
  Forall (λ a, ∀ s, I s → ∃ b s', f a s = (Ok b, s') ∧ I s' ∧ Φ b) l →
  I s →
  ∃ bs s', mapM f l s = (Ok bs, s') ∧ I s' ∧ Forall Φ bs ∧
           length bs = length l.
Proof.
  intros Hl. revert s. induction Hl as [|a l Ha _ IH]; intros s Hs.
  - exists [], s. by repeat split.
  - destruct (Ha s Hs) as (b & s1 & Hf & Hs1 & Hb).
    destruct (IH s1 Hs1) as (bs & s2 & Hm & Hs2 & Hbs & Hlen).
    exists (b :: bs), s2. rewrite mapM_cons, (bind_ok _ _ _ _ _ Hf).
    rewrite (bind_ok _ _ _ _ _ Hm). repeat split; [done | by constructor |].
    simpl. lia.
Qed.

Lemma for_assign_total {A B} (I : St → Prop) (Φ : B → Prop)
    (xs : list A) (body : A → Py St B) var s :
  (∀ x s, I s → ∃ b s', body x s = (Ok b, s') ∧ I s' ∧ Φ b) →
  I s → xs ≠ [] →
  ∃ b s', for_assign xs body var s = (Ok (Some b), s') ∧ I s' ∧ Φ b.
Proof.
  intros Hbody. revert var s. induction xs as [|x xs IH]; intros var s Hs Hne;
    [done|].
  destruct (Hbody x s Hs) as (b & s1 & Hb & Hs1 & HΦ).
  cbn [for_assign]. rewrite (bind_ok _ _ _ _ _ Hb).
  destruct xs as [|x' xs].
  - exists b, s1. done.
  - apply IH; done.
Qed.

(** The loop keeps the value of its last iteration only. *)
Lemma for_assign_last {A B} (xs : list A) (body : A → Py St B) var s :
  for_assign xs body var s =
  (vs ← mapM body xs; mret (from_option Some var (last vs))) s.
Proof.
  revert var s. induction xs as [|x xs IH]; intros var s; [done|].
  cbn [for_assign]. rewrite mapM_cons, !bind_run.
  destruct (body x s) as [[v|e] s1]; [|done].
  rewrite IH, !bind_run.
  destruct (mapM body xs s1) as [[vs|e] s2]; [|done].
  simpl. destruct vs as [|b vs]; [reflexivity|].
  change (last (v :: b :: vs)) with (last (b :: vs)).
  destruct (last (b :: vs)) eqn:Hlast; [reflexivity|].
  by apply last_None in Hlast.
Qed.
End PyFacts.

Create HintDb py_frame discriminated.

(** Discharge a [preserves] goal by following the structure of the
    computation; leaves of the agent's own are taken from [py_frame]. *)
Ltac py_frame :=
  repeat first
    [ solve [auto with py_frame]
    | apply preserves_ret; apply _
    | apply preserves_raise; apply _
    | apply preserves_gets; apply _
    | apply preserves_getitem; apply _
    | apply preserves_read_local; apply _
    | apply preserves_assert; apply _
    | apply preserves_bind; [apply _ | | intros ?]
    | apply preserves_mapM; [apply _ | intros ?]
    | apply preserves_for_assign; [apply _ | intros ?]
    | match goal with
      | |- preserves _ (let '(_, _) := ?x in _) => destruct x
      | |- preserves _ (if ?b then _ else _) => destruct b
      | |- preserves _ (match ?x with _ => _ end) => destruct x
      end ].

(** ** Facts about the numerics *)

Section NumericFacts.
Local Open Scope R_scope.

Lemma sum_cons a x : sum (a :: x) = a + sum x.
Proof. reflexivity. Qed.

Lemma mean_singleton a : mean [a] = a.
Proof. unfold mean. simpl. lra. Qed.

Lemma sum_neg x : sum (tneg x) = - sum x.
Proof. induction x as [|a x IH]; simpl; [lra | rewrite IH; lra]. Qed.

Lemma mean_neg x : mean (tneg x) = - mean x.
Proof.
  unfold mean, tneg. rewrite length_map. fold (tneg x). rewrite sum_neg.
  unfold Rdiv. lra.
Qed.

Lemma sum_nonneg x : Forall (λ a, 0 <= a) x → 0 <= sum x.
Proof. induction 1; simpl; lra. Qed.

Lemma sum_scaled (f : R → R) c x :
  sum (map (λ a, f a / c) x) = sum (map f x) / c.
Proof.
  induction x as [|a x IH]; simpl; [unfold Rdiv; lra | rewrite IH; unfold Rdiv; lra].
Qed.

Lemma sum_centred m x : sum (map (λ a, a - m) x) = sum x - INR (length x) * m.
Proof.
  induction x as [|a x IH]; [simpl; lra|].
  cbn [map sum foldr length]. fold (sum (map (λ a, a - m) x)).
  fold (sum x). rewrite IH, S_INR. lra.
Qed.

Lemma INR_length_pos {A} (x : list A) : x ≠ [] → 0 < INR (length x).
Proof.
  intros Hx. destruct x as [|a x]; [done|]. apply lt_0_INR. simpl. lia.
Qed.

Lemma mean_centre_scale c x : x ≠ [] → mean (centre_scale c x) = 0.
Proof.
  intros Hx. pose proof (INR_length_pos x Hx) as Hn.
  unfold centre_scale, mean at 1. rewrite length_map.
  rewrite (sum_scaled (λ a, a - mean x)), sum_centred.
  unfold mean. unfold Rdiv.
  replace (sum x - INR (length x) * (sum x * / INR (length x))) with 0.
  - lra.
  - field. lra.
Qed.

Lemma var_nonneg x : (2 ≤ length x)%nat → 0 <= var x.
Proof.
  intros Hn. unfold var. apply Rmult_le_pos.
  - apply sum_nonneg, Forall_map, Forall_forall. intros a _. simpl.
    apply pow2_ge_0.
  - apply Rlt_le, Rinv_0_lt_compat.
    apply le_INR in Hn. simpl in Hn. lra.
Qed.

Lemma var_centre_scale c x :
  x ≠ [] → c ≠ 0 → var (centre_scale c x) = var x / c ^ 2.
Proof.
  intros Hx Hc. unfold var. rewrite (mean_centre_scale c x Hx).
  unfold centre_scale. rewrite length_map, map_map.
  rewrite (map_ext _ (λ a, (a - mean x) ^ 2 / c ^ 2)).
  - rewrite (sum_scaled (λ a, (a - mean x) ^ 2)). unfold Rdiv. lra.
  - intros a. field. done.
Qed.

Lemma std_centre_scale c x :
  (2 ≤ length x)%nat → 0 < c → std (centre_scale c x) = std x / c.
Proof.
  intros Hn Hc. unfold std.
  rewrite var_centre_scale; [| intros ->; simpl in Hn; lia | lra].
  rewrite sqrt_div; [| by apply var_nonneg | by apply pow_lt].
  f_equal. rewrite <- Rsqr_pow2. apply sqrt_Rsqr. lra.
Qed.

Lemma std_nonneg x : 0 <= std x.
Proof. apply sqrt_pos. Qed.

Lemma std_constant a n : std (replicate n a) = 0.
Proof.
  unfold std.
  assert (sum (map (λ b, (b - mean (replicate n a)) ^ 2) (replicate n a)) = 0)
    as Hs.
  { destruct n as [|n]; [done|].
    assert (mean (replicate (S n) a) = a) as ->.
    { unfold mean. rewrite length_replicate.
      assert (sum (replicate (S n) a) = INR (S n) * a) as ->.
      { generalize (S n). intros k. induction k as [|k IH]; [simpl; lra|].
        cbn [replicate sum foldr]. fold (sum (replicate k a)).
        rewrite IH, S_INR. lra. }
      field. apply not_0_INR. lia. }
    generalize (S n). intros k. induction k as [|k IH]; [done|].
    cbn [replicate map sum foldr].
    fold (sum (map (λ b, (b - a) ^ 2) (replicate k a))). rewrite IH. lra. }
  unfold var. rewrite Hs. unfold Rdiv. rewrite Rmult_0_l. apply sqrt_0.
Qed.

Lemma clamp_id x lo hi : lo <= x → x <= hi → clamp x lo hi = x.
Proof.
  intros Hlo Hhi. unfold clamp. rewrite Rmax_left by done.
  by apply Rmin_left.
Qed.
End NumericFacts.

(** ** The agent *)

Section AgentFacts.
Context `{Torch} `{!TrainableActor} `{!Trainable Critic}.
Local Open Scope R_scope.

#[local] Instance same_self_preorder : PreOrder same_self.
Proof. split; [done | intros x y z Hxy Hyz; unfold same_self in *; congruence]. Qed.

Lemma preserves_random {A} (m : Py Generator A) : preserves same_self (random m).
Proof. intros w. unfold random, zoom. by destruct (m (torch_rng w)). Qed.

Lemma preserves_Actor_forward (R : relation World) `{!PreOrder R} a x :
  preserves R (Actor_forward a x).
Proof.
  unfold Actor_forward. destruct (action_head a); py_frame.
Qed.

Lemma choose_action_same_self obs : preserves same_self (choose_action obs).
Proof.
  unfold choose_action.
  unfold choose_action. py_frame.
  - apply preserves_Actor_forward, _.
  - apply preserves_random.
Qed.

Lemma choose_action_run obs w h :
  action_head (policy (self w)) = Some h →
  ∃ action g,
    length action = length obs ∧
    choose_action obs w =
      (Ok (action_out (policy_dist (policy (self w)) h obs) action
             (Critic_forward (value (self w)) obs)),
       set_rng g w).
Proof.
  intros Hh.
  destruct (mapM_step_ok sample (policy_dist (policy (self w)) h obs)
              (torch_rng w)) as (action & g & Hs & Hlen).
  exists action, g. split.
  { rewrite Hlen. unfold policy_dist. by rewrite !length_map. }
  unfold choose_action. rewrite bind_run. simpl.
  rewrite bind_run. unfold Actor_forward. rewrite Hh. simpl.
  rewrite bind_run. unfold random, zoom, sample_batch.
  fold (policy_dist (policy (self w)) h obs). rewrite Hs.
  reflexivity.
Qed.

Lemma choose_action_no_head obs w :
  action_head (policy (self w)) = None →
  choose_action obs w = (Raise (AttributeError "action_head"), w).
Proof.
  intros Hh. unfold choose_action. rewrite bind_run. simpl.
  rewrite bind_run. unfold Actor_forward. rewrite Hh. reflexivity.
Qed.

Lemma dom_action_out dist action V :
  dom (action_out dist action V) =
    ({[ "action_dist"; "entropy"; "action"; "raw_action"; "action_logprob"; "V" ]}
       : gset string).
Proof. unfold action_out. rewrite !dom_insert_L, dom_empty_L. set_solver. Qed.

Lemma action_out_dist dist action V :
  action_out dist action V !! "action_dist" = Some (VDist dist).
Proof. unfold action_out. by simplify_map_eq. Qed.
Lemma action_out_entropy dist action V :
  action_out dist action V !! "entropy" = Some (VTensor (map entropy dist)).
Proof. unfold action_out. by simplify_map_eq. Qed.
Lemma action_out_V dist action V :
  action_out dist action V !! "V" = Some (VTensor V).
Proof. unfold action_out. by simplify_map_eq. Qed.

Lemma scheduler_branch_run (b : bool) w :
  (b = true → is_Some (policy_lr_scheduler (self w))) →
  ∃ a, (if b then
          total_timestep ← gets (λ w, total_timestep (self w));
          LambdaLR_step total_timestep
        else mret tt) w = (Ok tt, {| self := a; torch_rng := torch_rng w |}) ∧
       config a = config (self w) ∧ policy a = policy (self w) ∧
       value a = value (self w) ∧
       total_timestep a = total_timestep (self w) ∧
       (b = true → is_Some (policy_lr_scheduler a)).
Proof.
  intros Hs. destruct b.
  - destruct (Hs eq_refl) as [s Hsched].
    rewrite bind_run. simpl. unfold LambdaLR_step. rewrite bind_run.
    unfold get_policy_lr_scheduler. rewrite Hsched. simpl.
    eexists. split; [reflexivity|]. simpl. eauto 10.
  - exists (self w). destruct w. simpl. split; [done|]. by repeat split.
Qed.

#[local] Instance same_step_preorder : PreOrder same_step.
Proof.
  split; [done|]. intros x y z [? ?] [? ?]. unfold same_step. split; congruence.
Qed.

Lemma same_self_step w w' : same_self w w' → same_step w w'.
Proof. unfold same_self, same_step. by intros ->. Qed.

Lemma ev_run {St} y_true y_pred (s : St) :
  ev y_true y_pred s =
    (if decide (length y_pred = 1%nat)
     then Raise explained_variance_error
     else Ok (explained_variance y_true y_pred), s).
Proof. unfold ev, squeezed_ndimension. by repeat case_decide. Qed.

(** An update on a ready agent, for any minibatch: it runs through both
    optimizer steps; with one row it then raises in [ev], otherwise it
    returns the mapping [out]. *)
Lemma learn_one_update_core data w h :
  action_head (policy (self w)) = Some h → ready w →
  let eps := agent_clip_range (config (self w)) in
  ∃ out w',
    learn_one_update data w =
      (if decide (length data = 1%nat)
       then Raise explained_variance_error else Ok out, w') ∧
    ready w' ∧ same_step w w' ∧
    dom out = update_keys ∧
    out !! "policy_loss" =
      Some (mean [mean (tneg (tmin (tmul (ratios w h data) (map old_A data))
                               (tmul (tclamp (ratios w h data) (1 - eps) (1 + eps))
                                     (map old_A data))))]) ∧
    out !! "value_loss" =
      Some (mean [mean (tmax (mse_loss (new_Vs w data) (map old_Q data))
                          (mse_loss
                             (tadd (map old_V data)
                                (tclamp (tsub (new_Vs w data) (map old_V data))
                                   (- eps) eps))
                             (map old_Q data)))]) ∧
    out !! "approx_kl" =
      Some (mean (tsub (map old_logprob data) (new_logprobs w h data))) ∧
    out !! "clip_frac" =
      Some (mean (map (outside (1 - eps) (1 + eps)) (ratios w h data))).
Proof.
  intros Hh Hready eps.
  destruct (choose_action_run (map observation data) w h Hh)
    as (action & g & Hlen & Hca).
  unfold learn_one_update.
  rewrite (bind_ok _ _ _ _ _ Hca).
  unfold getitem.
  rewrite action_out_dist, action_out_entropy, action_out_V.
  repeat (rewrite bind_run; simpl).
  destruct (clip_grad_norm_ _ _) as [pgrads pnorm].
  rewrite bind_run. simpl.
  destruct (scheduler_branch_run (agent_use_lr_scheduler (config (self w)))
              (set_rng g w) (proj2 Hready))
    as (a & Hrun & Hcfg & Hpol & Hval & Htot & Hsched).
  rewrite (bind_ok _ _ _ _ _ Hrun).
  repeat (rewrite bind_run; simpl).
  destruct (clip_grad_norm_ _ _) as [vgrads vnorm].
  rewrite bind_run. simpl. rewrite bind_run, ev_run.
  assert (length (Critic_forward (value (self w)) (map observation data)) =
          length data) as ->.
  { unfold Critic_forward. by rewrite !length_map. }
  eexists _, _. split.
  { destruct (decide (length data = 1%nat)); reflexivity. }
  simpl in Hcfg, Hpol, Htot.
  pose proof (adam_update_action_head (lr (policy_optimizer a))
                (adam_state (policy_optimizer a)) pgrads (policy a)) as Hhead.
  assert (is_Some (action_head (policy a))) as Hha by (rewrite Hpol, Hh; eauto).
  specialize (Hhead Hha).
  split; [|split].
  - unfold ready, on_self. simpl.
    destruct (adam_update _ _ pgrads _) as [p' pm]. simpl in *.
    destruct (adam_update _ _ vgrads _) as [v' vm]. simpl.
    rewrite Hcfg. done.
  - unfold same_step, on_self. simpl.
    destruct (adam_update _ _ pgrads _) as [p' pm]. simpl.
    destruct (adam_update _ _ vgrads _) as [v' vm]. simpl. done.
  - split; [|by simplify_map_eq].
    unfold update_keys. rewrite !dom_insert_L, dom_empty_L. set_solver.
Qed.

Lemma learn_one_update_run data w h :
  action_head (policy (self w)) = Some h → ready w →
  length data ≠ 1%nat →
  let eps := agent_clip_range (config (self w)) in
  ∃ out w',
    learn_one_update data w = (Ok out, w') ∧ ready w' ∧ same_step w w' ∧
    dom out = update_keys ∧
    out !! "policy_loss" =
      Some (mean [mean (tneg (tmin (tmul (ratios w h data) (map old_A data))
                               (tmul (tclamp (ratios w h data) (1 - eps) (1 + eps))
                                     (map old_A data))))]) ∧
    out !! "value_loss" =
      Some (mean [mean (tmax (mse_loss (new_Vs w data) (map old_Q data))
                          (mse_loss
                             (tadd (map old_V data)
                                (tclamp (tsub (new_Vs w data) (map old_V data))
                                   (- eps) eps))
                             (map old_Q data)))]) ∧
    out !! "approx_kl" =
      Some (mean (tsub (map old_logprob data) (new_logprobs w h data))) ∧
    out !! "clip_frac" =
      Some (mean (map (outside (1 - eps) (1 + eps)) (ratios w h data))).
Proof.
  intros Hh Hready Hrows eps.
  destruct (learn_one_update_core data w h Hh Hready) as (out & w' & Hrun & H').
  rewrite decide_False in Hrun by done. by exists out, w'.
Qed.

(** On a minibatch of one row the update raises, after both optimizers
    have stepped; the agent stays ready. *)
Lemma learn_one_update_single_row data w h :
  action_head (policy (self w)) = Some h → ready w →
  length data = 1%nat →
  ∃ w', learn_one_update data w = (Raise explained_variance_error, w') ∧
        ready w' ∧ same_step w w'.
Proof.
  intros Hh Hready Hrows.
  destruct (learn_one_update_core data w h Hh Hready)
    as (out & w' & Hrun & Hr & Hs & _).
  rewrite decide_True in Hrun by done. by exists w'.
Qed.

Lemma LambdaLR_step_same_step n : preserves same_step (LambdaLR_step n).
Proof.
  intros w. unfold LambdaLR_step. rewrite bind_run.
  unfold get_policy_lr_scheduler. by destruct (policy_lr_scheduler (self w)).
Qed.

Lemma policy_optimizer_step_same_step g :
  preserves same_step (policy_optimizer_step g).
Proof.
  intros w. unfold policy_optimizer_step, modify, on_self, same_step. simpl.
  by destruct (adam_update _ _ _ _).
Qed.

Lemma value_optimizer_step_same_step g :
  preserves same_step (value_optimizer_step g).
Proof.
  intros w. unfold value_optimizer_step, modify, on_self, same_step. simpl.
  by destruct (adam_update _ _ _ _).
Qed.

Lemma choose_action_same_step obs : preserves same_step (choose_action obs).
Proof. intros w. apply same_self_step, choose_action_same_self. Qed.

Lemma as_dist_same_step v : preserves same_step (as_dist v).
Proof. unfold as_dist. py_frame. Qed.
Lemma as_tensor_same_step v : preserves same_step (as_tensor v).
Proof. unfold as_tensor. py_frame. Qed.

Lemma ev_same_step y_true y_pred : preserves same_step (ev y_true y_pred).
Proof. unfold ev. py_frame. Qed.

#[local] Hint Resolve LambdaLR_step_same_step policy_optimizer_step_same_step
  value_optimizer_step_same_step choose_action_same_step
  as_dist_same_step as_tensor_same_step ev_same_step : py_frame.

(** An update, whether it returns or raises, leaves the counter and the
    configuration alone. *)
Lemma learn_one_update_same_step data :
  preserves same_step (learn_one_update data).
Proof.
  unfold learn_one_update. py_frame.
Qed.

#[local] Hint Resolve learn_one_update_same_step : py_frame.

Lemma Dataset_getitem_ok {St} ds i (s : St) :
  ds_wf ds → (i < Dataset_len ds)%nat →
  ∃ r, Dataset_getitem ds i s = (Ok r, s).
Proof.
  intros (Ha & Hl & He & HV & HQ & HA) Hi. unfold Dataset_getitem.
  destruct (lookup_lt_is_Some_2 (ds_observations ds) i) as [? ->]; [done|].
  destruct (lookup_lt_is_Some_2 (ds_actions ds) i) as [? ->]; [lia|].
  destruct (lookup_lt_is_Some_2 (ds_logprobs ds) i) as [? ->]; [lia|].
  destruct (lookup_lt_is_Some_2 (ds_entropies ds) i) as [? ->]; [lia|].
  destruct (lookup_lt_is_Some_2 (ds_Vs ds) i) as [? ->]; [lia|].
  destruct (lookup_lt_is_Some_2 (ds_Qs ds) i) as [? ->]; [lia|].
  destruct (lookup_lt_is_Some_2 (ds_As ds) i) as [? ->]; [lia|].
  simpl. eauto.
Qed.

Lemma collate_ok {St} ds idx (s : St) :
  ds_wf ds → Forall (λ i, (i < Dataset_len ds)%nat) idx →
  ∃ data, mapM (Dataset_getitem ds) idx s = (Ok data, s).
Proof.
  intros Hwf Hidx.
  destruct (mapM_total (λ s', s' = s) (λ _, True) (Dataset_getitem ds) idx s)
    as (data & s' & Hm & -> & _); [|done|eauto].
  eapply Forall_impl; [exact Hidx|]. intros i Hi s' ->.
  destruct (Dataset_getitem_ok ds i s Hwf Hi) as [r Hr]. eauto.
Qed.

Lemma batched_fuel_Forall (P : nat → Prop) fuel batch_size idx :
  Forall P idx → Forall (Forall P) (batched_fuel fuel batch_size idx).
Proof.
  revert idx. induction fuel as [|fuel IH]; intros idx Hidx; simpl; [done|].
  destruct idx as [|i idx]; [done|]. constructor.
  - by apply Forall_take.
  - by apply IH, Forall_drop.
Qed.

Lemma collate_rows {St} ds idx (s : St) :
  ds_wf ds → Forall (λ i, (i < Dataset_len ds)%nat) idx →
  ∃ data, mapM (Dataset_getitem ds) idx s = (Ok data, s) ∧
          length data = length idx.
Proof.
  intros Hwf Hidx.
  destruct (mapM_total (λ s', s' = s) (λ _, True) (Dataset_getitem ds) idx s)
    as (data & s' & Hm & -> & _ & Hlen); [|done|eauto].
  eapply Forall_impl; [exact Hidx|]. intros i Hi s' ->.
  destruct (Dataset_getitem_ok ds i s Hwf Hi) as [r Hr]. eauto.
Qed.

Lemma batched_fuel_rows fuel batch_size idx :
  batch_size ≠ 0%nat → batch_size ≠ 1%nat →
  length idx `mod` batch_size ≠ 1%nat →
  Forall (λ batch, length batch ≠ 1%nat) (batched_fuel fuel batch_size idx).
Proof.
  intros Hbs0 Hbs1. revert idx.
  induction fuel as [|fuel IH]; intros idx Hmod; simpl; [done|].
  destruct idx as [|i idx]; [done|].
  destruct (decide (batch_size ≤ length (i :: idx))%nat) as [Hle|Hgt].
  - constructor.
    + rewrite length_take. lia.
    + apply IH. rewrite length_drop.
      replace (length (i :: idx)) with
        (length (i :: idx) - batch_size + 1 * batch_size)%nat in Hmod by lia.
      by rewrite Nat.Div0.mod_add in Hmod.
  - constructor.
    + rewrite length_take. rewrite Nat.mod_small in Hmod by lia. lia.
    + apply IH. rewrite length_drop.
      replace (length (i :: idx) - batch_size)%nat with 0%nat by lia.
      rewrite Nat.Div0.mod_0_l. done.
Qed.

(** The minibatches of an epoch: indices in range, and no batch of one
    row when the batch size and the dataset length exclude it. *)
Lemma batched_checked n batch_size perm :
  perm ≡ₚ seq 0 n → batch_size ≠ 0%nat → single_row_free batch_size n →
  Forall (λ idx, Forall (λ i, (i < n)%nat) idx ∧ length idx ≠ 1%nat)
    (batched batch_size perm).
Proof.
  intros Hperm Hbs0 [Hbs1 Hmod]. apply Forall_and. split.
  - apply batched_fuel_Forall. rewrite Hperm. apply Forall_seq. lia.
  - apply batched_fuel_rows; [done..|].
    apply Permutation_length in Hperm. by rewrite Hperm, length_seq.
Qed.

Lemma learn_epoch_run dataloader w :
  ready w → ds_wf (dl_dataset dataloader) →
  dl_batch_size dataloader ≠ 0%nat →
  single_row_free (dl_batch_size dataloader)
    (Dataset_len (dl_dataset dataloader)) →
  ∃ logs w', learn_epoch dataloader w = (Ok logs, w') ∧ ready w' ∧
             Forall (λ out, dom out = update_keys) logs.
Proof.
  intros Hready Hwf Hbs Hrows. unfold learn_epoch, for_data_in.
  rewrite bind_run. unfold random, zoom, step.
  pose proof (randperm_Permutation (Dataset_len (dl_dataset dataloader))
                (torch_rng w)) as Hperm.
  destruct (randperm _ _) as [perm g]. simpl in Hperm.
  assert (Forall (λ i, (i < Dataset_len (dl_dataset dataloader))%nat) perm)
    as Hlt.
  { rewrite Hperm. apply Forall_seq. lia. }
  destruct (mapM_total ready (λ out : gmap string R, dom out = update_keys)
              (λ idx, data ← mapM (Dataset_getitem (dl_dataset dataloader)) idx;
                      learn_one_update data)
              (batched (dl_batch_size dataloader) perm) (set_rng g w))
    as (logs & w' & Hm & Hr & Hlogs & _); [|done|by eauto].
  eapply Forall_impl; [apply (batched_checked _ _ _ Hperm Hbs Hrows)|].
  intros idx [Hidx Hone] s Hs. simpl in Hidx.
  destruct (collate_rows _ idx s Hwf Hidx) as (data & Hdata & Hlen).
  rewrite (bind_ok _ _ _ _ _ Hdata).
  destruct Hs as [[h Hh] Hsched].
  destruct (learn_one_update_run data s h Hh (conj (mk_is_Some _ _ Hh) Hsched))
    as (out & s' & Hrun & Hr' & _ & Hdom & _); [by rewrite Hlen|].
  eauto.
Qed.

Lemma learn_epoch_same_step dataloader :
  preserves same_step (learn_epoch dataloader).
Proof.
  unfold learn_epoch, for_data_in. py_frame.
  - intros w. apply same_self_step, preserves_random.
  - unfold Dataset_getitem. py_frame.
Qed.

Lemma cat_info_all {St} key D (s : St) :
  Forall (λ traj, steps traj ≠ []) D →
  mapM (cat_info key) D s = (Ok (flat_info key D), s).
Proof.
  induction 1 as [|traj D Htraj _ IH]; [done|].
  assert (cat_info key traj s = (Ok (map key (steps traj)), s)) as Hc.
  { unfold cat_info. by destruct (steps traj). }
  rewrite mapM_cons, (bind_ok _ _ _ _ _ Hc), (bind_ok _ _ _ _ _ IH).
  reflexivity.
Qed.

Lemma np_concatenate_ok {St A} (x : list (list A)) (s : St) :
  x ≠ [] → np_concatenate x s = (Ok (concat x), s).
Proof. by destruct x. Qed.

Lemma torch_cat_ok {St A} (x : list (list A)) (s : St) :
  x ≠ [] → torch_cat x s = (Ok (concat x), s).
Proof. by destruct x. Qed.

Lemma concat_singletons {A B} (f : A → B) l :
  concat (map (λ a, [f a]) l) = map f l.
Proof. induction l as [|a l IH]; [done|]. simpl. by rewrite IH. Qed.

Lemma nonempty_length {A} (l : list A) : l ≠ [] ↔ length l ≠ 0%nat.
Proof. destruct l; simpl; split; intros; done. Qed.

Lemma length_flat {A} (key : Step → A) D :
  length (concat (map (λ traj, map key (steps traj)) D)) = sum_list (map len D).
Proof.
  induction D as [|traj D IH]; [done|]. simpl.
  rewrite length_app, length_map, IH. reflexivity.
Qed.

Lemma length_returns_from gamma rewards seed :
  length (returns_from gamma rewards seed) = length rewards.
Proof. induction rewards as [|r rs IH]; simpl; [done | by rewrite IH]. Qed.

Lemma length_gae_from gamma lam rewards Vs V_end :
  length rewards = length Vs →
  length (gae_from gamma lam rewards Vs V_end) = length rewards.
Proof.
  revert Vs. induction rewards as [|r rs IH]; intros [|V Vs] Hlen;
    simpl in *; try done.
  rewrite IH; [done | lia].
Qed.

Lemma length_batch_returns gamma D last_Vs :
  length last_Vs = length D →
  length (concat (zip_with (bootstrapped_returns gamma) D last_Vs)) =
    sum_list (map len D).
Proof.
  revert last_Vs. induction D as [|traj D IH]; intros [|v vs] Hlen;
    simpl in *; try done.
  rewrite length_app, IH by lia. unfold bootstrapped_returns at 1.
  rewrite length_returns_from, length_map. reflexivity.
Qed.

Lemma length_batch_advantages gamma lam D last_Vs :
  length last_Vs = length D →
  length (concat (zip_with (λ '(traj, V) last_V, gae gamma lam traj V last_V)
                    (zip D (flat_info info_V D)) last_Vs)) =
    sum_list (map len D).
Proof.
  revert last_Vs. induction D as [|traj D IH]; intros [|v vs] Hlen;
    simpl in *; try done.
  rewrite length_app, IH by lia. unfold gae at 1.
  rewrite length_gae_from, length_map; [done|]. by rewrite !length_map.
Qed.

Lemma learn_dataset_run D w :
  well_formed_batch D →
  ∃ ds, learn_dataset D w = (Ok ds, w) ∧ ds_wf ds ∧
        Dataset_len ds = sum_list (map len D) ∧
        ds_As ds =
          (if agent_standardize_adv (config (self w))
           then centre_scale (std (batch_advantages w D) + 1e-8)
                  (batch_advantages w D)
           else batch_advantages w D).
Proof.
  intros (HD & Hsteps & Hone). unfold learn_dataset.
  rewrite (bind_ok _ _ _ _ _ (cat_info_all info_action_logprob D w Hsteps)).
  rewrite (bind_ok _ _ _ _ _ (cat_info_all info_entropy D w Hsteps)).
  rewrite (bind_ok _ _ _ _ _ (cat_info_all info_V D w Hsteps)).
  assert (length D ≠ 0%nat) as HlenD by by apply nonempty_length.
  rewrite (bind_ok _ _ _ _ _ (np_concatenate_ok _ w
    (proj2 (nonempty_length _) ltac:(by rewrite length_map)))).
  rewrite concat_singletons.
  do 3 (rewrite bind_run; simpl).
  fold (last_values w D).
  assert (length (last_values w D) = length D) as Hlast.
  { unfold last_values, Critic_forward. by rewrite !length_map. }
  assert (∀ key, flat_info key D ≠ []) as Hflat.
  { intros key. apply nonempty_length. unfold flat_info. by rewrite length_map. }
  rewrite !(bind_ok _ _ _ _ _ (torch_cat_ok _ w (Hflat _))).
  match goal with
  | |- context [np_concatenate ?x] =>
      assert (x ≠ []) as HQ
        by (apply nonempty_length; by rewrite length_zip_with, Hlast, Nat.min_id);
      rewrite (bind_ok _ _ _ _ _ (np_concatenate_ok x w HQ))
  end.
  match goal with
  | |- context [np_concatenate ?x] =>
      assert (x ≠ []) as HA0
        by (apply nonempty_length; unfold flat_info;
            by rewrite length_zip_with, length_zip, length_map, Hlast, !Nat.min_id);
      rewrite (bind_ok _ _ _ _ _ (np_concatenate_ok x w HA0))
  end.
  rewrite bind_run; simpl.
  fold (batch_advantages w D).
  assert (∀ key, squeezed_ndimension (concat (flat_info key D)) = 1%nat) as Hnd.
  { intros key. unfold squeezed_ndimension, flat_info.
    rewrite length_flat. by case_decide. }
  rewrite !Hnd. simpl. rewrite bind_run. simpl.
  eexists. split; [reflexivity|].
  assert (length (batch_advantages w D) = sum_list (map len D)) as HA.
  { unfold batch_advantages. by apply length_batch_advantages. }
  unfold ds_wf, Dataset_len, Dataset_init, flat_info. simpl.
  rewrite !length_flat, length_batch_returns by done.
  repeat split; try done.
  destruct (agent_standardize_adv _); [|done].
  by rewrite length_map.
Qed.

Lemma cat_info_preserves (R : relation World) `{!PreOrder R} key traj :
  preserves R (cat_info key traj).
Proof. unfold cat_info. py_frame. Qed.

Lemma learn_dataset_same_self D : preserves same_self (learn_dataset D).
Proof.
  unfold learn_dataset. py_frame.
  all: try (apply cat_info_preserves, _).
  all: unfold np_concatenate, torch_cat; py_frame.
Qed.

#[local] Hint Resolve learn_epoch_same_step : py_frame.

Lemma preserved_run {A} (R : relation World) (m : Py World A) w r w' :
  preserves R m → m w = (r, w') → R w w'.
Proof. intros Hm Hrun. specialize (Hm w). by rewrite Hrun in Hm. Qed.

Lemma column_ok {St} key (logs : list (gmap string R)) (s : St) :
  Forall (λ out, dom out = update_keys) logs → key ∈ update_keys →
  ∃ x, column key logs s = (Ok x, s).
Proof.
  intros Hlogs Hkey. unfold column.
  destruct (mapM_total (λ s', s' = s) (λ _, True)
              (λ item : gmap string R, getitem item key) logs s)
    as (x & s' & Hm & -> & _); [|done|eauto].
  eapply Forall_impl; [exact Hlogs|]. intros out Hdom s' ->.
  assert (is_Some (out !! key)) as [v Hv].
  { apply elem_of_dom. by rewrite Hdom. }
  unfold getitem. rewrite Hv. by eexists _, _.
Qed.

Lemma column_same_self key logs : preserves same_self (column key logs).
Proof. unfold column. py_frame. Qed.

Lemma LambdaLR_get_lr_same_self : preserves same_self LambdaLR_get_lr.
Proof.
  intros w. unfold LambdaLR_get_lr. rewrite bind_run.
  unfold get_policy_lr_scheduler. by destruct (policy_lr_scheduler (self w)).
Qed.

Lemma DataLoader_init_preserves (R : relation World) `{!PreOrder R} ds n :
  preserves R (DataLoader_init ds n).
Proof. unfold DataLoader_init. py_frame. Qed.

#[local] Hint Resolve column_same_self LambdaLR_get_lr_same_self : py_frame.

(** A [learn] call that returns has advanced the counter by the number of
    timesteps of its batch, once, and has kept the configuration. *)
Lemma learn_total_timestep D w out w' :
  learn D w = (Ok out, w') →
  total_timestep (self w') =
    (total_timestep (self w) + sum_list (map len D))%nat ∧
  config (self w') = config (self w).
Proof.
  unfold learn. intros Hrun.
  apply bind_inv in Hrun as (ds & w1 & H1 & Hrun).
  apply (preserved_run same_self) in H1; [|apply learn_dataset_same_self].
  apply bind_inv in Hrun as (bs & w2 & H2 & Hrun).
  apply (preserved_run same_self) in H2; [|py_frame].
  apply bind_inv in Hrun as (dl & w3 & H3 & Hrun).
  apply (preserved_run same_self) in H3; [|apply DataLoader_init_preserves, _].
  apply bind_inv in Hrun as (n & w4 & H4 & Hrun).
  apply (preserved_run same_self) in H4; [|py_frame].
  apply bind_inv in Hrun as (logs & w5 & H5 & Hrun).
  apply (preserved_run same_step) in H5; [|py_frame].
  apply bind_inv in Hrun as ([] & w6 & H6 & Hrun).
  injection H6 as <-.
  match type of Hrun with
  | ?m _ = _ => assert (preserves same_self m) as Htail
  end.
  { py_frame. }
  apply (preserved_run same_self _ _ _ _ Htail) in Hrun.
  unfold same_self, same_step in *. rewrite Hrun. simpl.
  destruct H5 as [-> ->]. by rewrite H4, H3, H2, H1.
Qed.

Lemma learn_unfold D :
  learn D =
    (dataset ← learn_dataset D;
     batch_size ← gets (λ w, train_batch_size (config (self w)));
     dataloader ← DataLoader_init dataset batch_size;
     num_epochs ← gets (λ w, train_num_epochs (config (self w)));
     logs ← for_assign (range num_epochs) (λ epoch, learn_epoch dataloader) None;
     modify (on_self (λ a,
       set_total_timestep (total_timestep a + sum_list (map len D)) a));;
     learn_report logs).
Proof. reflexivity. Qed.

(** [learn] builds its mapping from the logs of the last epoch among all
    the invocations of the call. *)
Lemma learn_uses_last_epoch D w :
  learn D w =
    (epochs ← learn_invocations D;
     modify (on_self (λ a,
       set_total_timestep (total_timestep a + sum_list (map len D)) a));;
     learn_report (last epochs)) w.
Proof.
  rewrite learn_unfold. unfold learn_invocations. rewrite !bind_run.
  destruct (learn_dataset D w) as [[ds|e] w1]; [|done].
  rewrite !bind_run. simpl.
  destruct (train_batch_size (config (self w1))) as [|batch_size]; [done|].
  repeat (rewrite bind_run; simpl). rewrite for_assign_last, bind_run.
  match goal with
  | |- context [mapM ?f ?l w1] => destruct (mapM f l w1) as [[epochs|e] w2]
  end; [|done].
  simpl. by destruct (last epochs).
Qed.

Lemma learn_report_same_self logs : preserves same_self (learn_report logs).
Proof. unfold learn_report. py_frame. Qed.


Lemma learn_report_run logs w :
  (agent_use_lr_scheduler (config (self w)) = true →
   is_Some (policy_lr_scheduler (self w))) →
  Forall (λ out, dom out = update_keys) logs →
  ∃ out, learn_report (Some logs) w = (Ok out, w).
Proof.
  intros Hsched Hlogs. unfold learn_report.
  rewrite bind_run. simpl.
  assert (∃ out0,
    (if agent_use_lr_scheduler (config (self w))
     then current_lr ← LambdaLR_get_lr;
          mret (<["current_lr" := DList current_lr]> (∅ : gmap string Diag))
     else mret ∅) w = (Ok out0, w)) as [out0 Hout].
  { destruct (agent_use_lr_scheduler (config (self w))); [|by eexists].
    destruct (Hsched eq_refl) as [s Hs]. rewrite bind_run.
    unfold LambdaLR_get_lr. rewrite bind_run.
    unfold get_policy_lr_scheduler. rewrite Hs. simpl. by eexists. }
  rewrite (bind_ok _ _ _ _ _ Hout).
  repeat match goal with
  | |- context [column ?key] =>
      let Hc := fresh "Hc" in
      destruct (column_ok key logs w Hlogs) as [? Hc];
        [unfold update_keys; set_solver|];
      rewrite (bind_ok _ _ _ _ _
                 (eq_trans (bind_ok (read_local "logs" (Some logs))
                              (column key) w logs w eq_refl) Hc));
      clear Hc
  end.
  by eexists.
Qed.

Lemma learn_report_unbound w :
  ∃ e, learn_report None w = (Raise e, w) ∧
       ((agent_use_lr_scheduler (config (self w)) = true →
         is_Some (policy_lr_scheduler (self w))) →
        e = UnboundLocalError "logs").
Proof.
  unfold learn_report. rewrite bind_run. simpl.
  destruct (agent_use_lr_scheduler (config (self w))).
  - rewrite bind_run, bind_run. unfold LambdaLR_get_lr. rewrite bind_run.
    unfold get_policy_lr_scheduler.
    destruct (policy_lr_scheduler (self w)) as [s|]; simpl.
    + eexists. split; [reflexivity | done].
    + eexists. split; [reflexivity|]. intros Hs.
      by destruct (Hs eq_refl).
  - eexists. split; [reflexivity | done].
Qed.

Lemma range_nonpos n : (n ≤ 0)%Z → range n = [].
Proof. intros Hn. unfold range. by replace (Z.to_nat n) with 0%nat by lia. Qed.

Lemma range_pos n : (1 ≤ n)%Z → range n ≠ [].
Proof.
  intros Hn. unfold range. destruct (Z.to_nat n) eqn:Hz; [lia | done].
Qed.


Lemma learn_returns D w :
  ready w → well_formed_batch D →
  train_batch_size (config (self w)) ≠ 0%nat →
  single_row_free (train_batch_size (config (self w))) (sum_list (map len D)) →
  (1 ≤ train_num_epochs (config (self w)))%Z →
  ∃ out w', learn D w = (Ok out, w').
Proof.
  intros Hready HD Hbs Hrows Hn. rewrite learn_unfold.
  destruct (learn_dataset_run D w HD) as (ds & Hds & Hwf & Hlen & _).
  rewrite (bind_ok _ _ _ _ _ Hds). rewrite bind_run. simpl.
  destruct (train_batch_size (config (self w))) as [|bs] eqn:Hb; [done|].
  rewrite bind_run. simpl. rewrite bind_run. simpl.
  destruct (for_assign_total ready
              (Forall (λ out : gmap string R, dom out = update_keys))
              (range (train_num_epochs (config (self w))))
              (λ _, learn_epoch {| dl_dataset := ds; dl_batch_size := S bs |})
              None w)
    as (logs & w1 & Hloop & [Hhead Hsched] & Hlogs);
    [| done | by apply range_pos |].
  { intros _ s Hs.
    destruct (learn_epoch_run {| dl_dataset := ds; dl_batch_size := S bs |}
                s Hs Hwf) as (l & s' & ? & ? & ?);
      [done | by simpl; rewrite Hlen |].
    eauto. }
  rewrite (bind_ok _ _ _ _ _ Hloop). rewrite bind_run. simpl.
  destruct (learn_report_run logs
              (on_self (λ a, set_total_timestep
                               (total_timestep a + sum_list (map len D)) a) w1))
    as [out Hout]; [done | done |].
  rewrite Hout. eauto.
Qed.

Lemma learn_zero_epochs D w :
  (train_num_epochs (config (self w)) ≤ 0)%Z →
  ∃ e w', learn D w = (Raise e, w') ∧
          (ready w → well_formed_batch D →
           train_batch_size (config (self w)) ≠ 0%nat →
           e = UnboundLocalError "logs" ∧
           total_timestep (self w') =
             (total_timestep (self w) + sum_list (map len D))%nat).
Proof.
  intros Hn. rewrite learn_unfold. rewrite bind_run.
  destruct (learn_dataset D w) as [[ds|e] w1] eqn:Hds; cycle 1.
  { eexists _, _. split; [done|]. intros _ HD _.
    destruct (learn_dataset_run D w HD) as (? & ? & _). congruence. }
  pose proof (preserved_run same_self _ _ _ _ (learn_dataset_same_self D) Hds)
    as Hself.
  unfold same_self in Hself.
  rewrite bind_run. simpl. rewrite bind_run.
  destruct (train_batch_size (config (self w1))) as [|bs] eqn:Hb; simpl.
  { eexists _, _. split; [done|]. intros _ _ Hbs. by rewrite Hself in Hb. }
  rewrite bind_run. simpl. rewrite bind_run.
  rewrite range_nonpos by by rewrite Hself. simpl.
  rewrite bind_run. simpl.
  destruct (learn_report_unbound
              (on_self (λ a, set_total_timestep
                               (total_timestep a + sum_list (map len D)) a) w1))
    as (e & He & Hlogs).
  rewrite He. eexists _, _. split; [done|]. intros [_ Hsched] _ _.
  simpl in *. rewrite Hself in *. split; [by apply Hlogs | done].
Qed.

Lemma surrogate_tensor eps (logprobs : list R) (data : list Sample) :
  tmin (tmul (texp (tsub logprobs (map old_logprob data))) (map old_A data))
       (tmul (tclamp (texp (tsub logprobs (map old_logprob data)))
                (1 - eps) (1 + eps))
             (map old_A data)) =
  zip_with (λ lp s, clipped_surrogate eps lp (old_logprob s) (old_A s))
    logprobs data.
Proof.
  revert logprobs. induction data as [|s data IH]; intros [|lp lps];
    try reflexivity.
  specialize (IH lps). unfold tmin, tmul, texp, tsub, tclamp in *.
  cbn [zip_with map]. by rewrite IH.
Qed.

Lemma value_error_tensor eps (Vs : list R) (data : list Sample) :
  tmax (mse_loss Vs (map old_Q data))
       (mse_loss (tadd (map old_V data)
                    (tclamp (tsub Vs (map old_V data)) (- eps) eps))
                 (map old_Q data)) =
  zip_with (λ V s, clipped_value_error eps V (old_V s) (old_Q s)) Vs data.
Proof.
  revert Vs. induction data as [|s data IH]; intros [|V Vs]; try reflexivity.
  specialize (IH Vs). unfold tmax, mse_loss, tadd, tsub, tclamp in *.
  cbn [zip_with map]. rewrite IH. f_equal. unfold clipped_value_error.
  do 2 f_equal. lra.
Qed.

(** Claim C3.  For every minibatch of at least two rows, on an agent whose
    policy has its action head, the update step returns, and the policy
    loss it reports (the one it backpropagates) is
    [-mean(min(ratio * A, clip(ratio, 1 - eps, 1 + eps) * A))] with
    [ratio = exp(new_logprob - old_logprob)], where [new_logprob] is the
    log-probability of the old action under the current policy, [A] the
    precomputed advantage and [eps] the configured clip range.  (On a
    minibatch of one row the update computes the same loss and steps both
    optimizers, then raises in [ev] and reports nothing.) *)
Theorem policy_loss_clipped_surrogate data w h :
  action_head (policy (self w)) = Some h → ready w →
  (2 ≤ length data)%nat →
  ∃ out w',
    learn_one_update data w = (Ok out, w') ∧
    out !! "policy_loss" =
      Some (- mean (zip_with
                      (λ new_logprob s,
                         clipped_surrogate (agent_clip_range (config (self w)))
                           new_logprob (old_logprob s) (old_A s))
                      (new_logprobs w h data) data)).
Proof.
  intros Hh Hready Hrows.
  destruct (learn_one_update_run data w h Hh Hready)
    as (out & w' & Hrun & _ & _ & _ & Hloss & _); [lia|].
  exists out, w'. split; [done|].
  rewrite Hloss, mean_singleton, mean_neg. unfold ratios.
  by rewrite surrogate_tensor.
Qed.

(** Claim C4.  For every minibatch of at least two rows, the update step
    returns and the value loss it reports is
    [mean(max((V - Q)^2, (clip(V - old_V, -eps, eps) + old_V - Q)^2))],
    where [V] is the prediction of the current critic, [old_V] the cached
    value, [Q] the bootstrapped return and [eps] the configured clip
    range.  (A minibatch of one row makes the update raise in [ev].) *)
Theorem value_loss_clipped data w h :
  action_head (policy (self w)) = Some h → ready w →
  (2 ≤ length data)%nat →
  ∃ out w',
    learn_one_update data w = (Ok out, w') ∧
    out !! "value_loss" =
      Some (mean (zip_with
                    (λ V s,
                       clipped_value_error (agent_clip_range (config (self w)))
                         V (old_V s) (old_Q s))
                    (new_Vs w data) data)).
Proof.
  intros Hh Hready Hrows.
  destruct (learn_one_update_run data w h Hh Hready)
    as (out & w' & Hrun & _ & _ & _ & _ & Hloss & _); [lia|].
  exists out, w'. split; [done|].
  by rewrite Hloss, mean_singleton, value_error_tensor.
Qed.

Lemma ratios_unchanged_policy w h data :
  map old_logprob data = new_logprobs w h data →
  ratios w h data = map (λ _, 1) data.
Proof.
  intros Hold. unfold ratios. rewrite <- Hold. clear Hold. unfold texp, tsub.
  induction data as [|s data IH]; [done|]. cbn [zip_with map].
  by rewrite Rminus_diag, exp_0, IH.
Qed.

(** Claim C7.  When the old log-probabilities of a minibatch are those of
    the current policy parameters, every importance ratio is 1; and when
    the minibatch has at least two rows, the update returns and its policy
    loss is [-mean(A)].  The clip range is taken non-negative, as a range
    is.  (A minibatch of one row makes the update raise in [ev].) *)
Theorem unchanged_policy_ratio_one data w h :
  action_head (policy (self w)) = Some h → ready w →
  map old_logprob data = new_logprobs w h data →
  0 <= agent_clip_range (config (self w)) →
  Forall (λ ratio, ratio = 1) (ratios w h data) ∧
  ((2 ≤ length data)%nat →
   ∃ out w',
     learn_one_update data w = (Ok out, w') ∧
     out !! "policy_loss" = Some (- mean (map old_A data))).
Proof.
  intros Hh Hready Hold Heps.
  pose proof (ratios_unchanged_policy w h data Hold) as Hratio.
  split.
  { rewrite Hratio. apply Forall_map, Forall_forall. done. }
  intros Hrows.
  destruct (learn_one_update_run data w h Hh Hready)
    as (out & w' & Hrun & _ & _ & _ & Hloss & _); [lia|].
  exists out, w'. split; [done|].
  rewrite Hloss, mean_singleton, mean_neg, Hratio. do 3 f_equal.
  unfold tmin, tmul, tclamp. clear -Heps.
  induction data as [|s data IH]; [done|]. simpl. rewrite IH. f_equal.
  rewrite clamp_id by lra. rewrite Rmin_left; lra.
Qed.

Lemma init_feature_layers_ok layers g :
  ∃ layers' g', init_feature_layers layers g = (Ok layers', g').
Proof.
  revert g. induction layers as [|layer layers IH]; intros g; simpl.
  - by eexists _, _.
  - rewrite bind_run. unfold step at 1.
    destruct (ortho_init _ _ _ _ g) as [layer' g1].
    destruct (IH g1) as (layers' & g2 & Hl). rewrite bind_run, Hl.
    by eexists _, _.
Qed.

(** Claim C2, as the code behaves.  For an action space that is neither
    [Discrete] nor [Box], [Actor.__init__] raises nothing: it returns an
    actor whose [action_head] was never set, and the failure surfaces only
    at the first forward pass, as an [AttributeError]. *)
Theorem Actor_init_unsupported_action_space config env g :
  (∀ n, action_space env ≠ Discrete n) →
  (∀ shape, action_space env ≠ Box shape) →
  nn_sizes config ≠ [] →
  ∃ actor g',
    Actor_init config env g = (Ok actor, g') ∧
    action_head actor = None ∧
    ∀ (St : Type) (x : list Tensor) (s : St),
      Actor_forward actor x s = (Raise (AttributeError "action_head"), s).
Proof.
  intros Hdiscrete Hbox Hsizes. unfold Actor_init.
  rewrite bind_run. unfold step at 1.
  destruct (make_fc _ _ g) as [layers g1].
  destruct (init_feature_layers_ok layers g1) as (layers' & g2 & Hl).
  rewrite (bind_ok _ _ _ _ _ Hl). unfold last_size.
  destruct (last (nn_sizes config)) as [d|] eqn:Hlast; cycle 1.
  { by apply last_None in Hlast. }
  rewrite bind_run. simpl.
  destruct (action_space env) eqn:Hspace;
    [by destruct (Hdiscrete n) | by destruct (Hbox shape) | ..].
  all: rewrite bind_run; simpl; eexists _, _; split; [reflexivity|];
    split; [done|]; intros St x s; reflexivity.
Qed.

Lemma Agent_init_total_timestep config env g agent g' :
  Agent_init config env g = (Ok agent, g') → total_timestep agent = 0%nat.
Proof.
  unfold Agent_init. intros Hrun.
  apply bind_inv in Hrun as (p & g1 & _ & Hrun).
  apply bind_inv in Hrun as (v & g2 & _ & Hrun).
  destruct (agent_use_lr_scheduler config); by injection Hrun as <- _.
Qed.

Lemma learn_calls_total_timestep Ds w outs w' :
  mapM learn Ds w = (Ok outs, w') →
  total_timestep (self w') =
    (total_timestep (self w) +
     sum_list (map (λ D, sum_list (map len D)) Ds))%nat.
Proof.
  revert w outs. induction Ds as [|D Ds IH]; intros w outs Hrun.
  - injection Hrun as _ <-. simpl. lia.
  - rewrite mapM_cons in Hrun.
    apply bind_inv in Hrun as (out & w1 & H1 & Hrun).
    apply bind_inv in Hrun as (outs' & w2 & H2 & Hrun).
    injection Hrun as _ <-.
    apply learn_total_timestep in H1 as [H1 _]. apply IH in H2.
    rewrite H2, H1. simpl. lia.
Qed.

(** Claim C5.  The counter of a freshly constructed agent is 0; after any
    sequence of [learn] calls that return, it equals the sum of the
    trajectory lengths of all the batches, whatever the batch size and the
    number of epochs in the configuration; and a minibatch update never
    changes it. *)
Theorem total_timestep_running_sum config env g agent g' Ds :
  Agent_init config env g = (Ok agent, g') →
  returns (mapM learn Ds) {| self := agent; torch_rng := g' |} = true →
  total_timestep agent = 0%nat ∧
  total_timestep (self (mapM learn Ds {| self := agent; torch_rng := g' |}).2) =
    sum_list (map (λ D, sum_list (map len D)) Ds) ∧
  ∀ data w,
    total_timestep (self (learn_one_update data w).2) = total_timestep (self w).
Proof.
  intros Hinit Hret. apply Agent_init_total_timestep in Hinit.
  split; [done|]. split.
  - unfold returns in Hret.
    destruct (mapM learn Ds _) as [[outs|e] w'] eqn:Hrun; [|done].
    apply learn_calls_total_timestep in Hrun. simpl in *. lia.
  - intros data w. apply learn_one_update_same_step.
Qed.

(** Claim C8.  For every observation batch, [choose_action] on an agent
    whose policy has its action head leaves the agent object as it was
    (networks, both optimizers, counter) and returns a mapping whose keys
    are exactly [action_dist], [entropy], [action], [raw_action],
    [action_logprob] and [V]. *)
Theorem choose_action_frame obs w :
  is_Some (action_head (policy (self w))) →
  self (choose_action obs w).2 = self w ∧
  ∃ out,
    (choose_action obs w).1 = Ok out ∧
    dom out =
      ({[ "action_dist"; "entropy"; "action"; "raw_action";
          "action_logprob"; "V" ]} : gset string).
Proof.
  intros [h Hh]. split; [apply choose_action_same_self|].
  destruct (choose_action_run obs w h Hh) as (action & g & _ & Hrun).
  rewrite Hrun. eexists. split; [done|]. apply dom_action_out.
Qed.




(** Claim C10.  With a configured number of epochs of 0 (or less) [learn]
    never returns a mapping: it raises, and when everything before the
    aggregation succeeds the exception is the read of the unassigned local
    [logs]. *)
Theorem learn_needs_an_epoch D w :
  (train_num_epochs (config (self w)) ≤ 0)%Z →
  ∃ e w',
    learn D w = (Raise e, w') ∧
    (ready w → well_formed_batch D →
     train_batch_size (config (self w)) ≠ 0%nat →
     e = UnboundLocalError "logs").
Proof.
  intros Hn. destruct (learn_zero_epochs D w Hn) as (e & w' & Hrun & He).
  exists e, w'. split; [done|]. intros Hready HD Hbs.
  by destruct (He Hready HD Hbs).
Qed.

Lemma well_formed_batch_length D w :
  well_formed_batch D → (2 ≤ length (batch_advantages w D))%nat.
Proof.
  intros (HD & Hsteps & Hone).
  unfold batch_advantages. rewrite length_batch_advantages.
  - destruct D as [|traj D]; [done|]. apply Forall_cons in Hsteps as [Ht _].
    simpl in *. unfold len at 1 in Hone. unfold len at 1.
    destruct (steps traj); [done|]. simpl in *. lia.
  - unfold last_values, Critic_forward. by rewrite !length_map.
Qed.

(** Claim C6, amended.  [learn] standardizes the advantages of the whole
    flattened batch, [A -> (A - mean(A)) / (std(A) + 1e-8)], when the flag
    is set and leaves them as they are otherwise.  The standardized batch
    has mean 0 and standard deviation [std(A) / (std(A) + 1e-8)]: within
    [1e-8 / std(A)] of 1 when [std(A) > 0], and 0 when [std(A) = 0]. *)
Theorem advantage_standardization D w :
  well_formed_batch D →
  ∃ ds,
    learn_dataset D w = (Ok ds, w) ∧
    let A := batch_advantages w D in
    (agent_standardize_adv (config (self w)) = false → ds_As ds = A) ∧
    (agent_standardize_adv (config (self w)) = true →
     ds_As ds = map (λ a, (a - mean A) / (std A + 1e-8)) A ∧
     mean (ds_As ds) = 0 ∧
     std (ds_As ds) = std A / (std A + 1e-8) ∧
     (0 < std A → Rabs (std (ds_As ds) - 1) <= 1e-8 / std A) ∧
     (std A = 0 → std (ds_As ds) = 0)).
Proof.
  intros HD. destruct (learn_dataset_run D w HD) as (ds & Hrun & _ & _ & HA).
  pose proof (well_formed_batch_length D w HD) as Hlen.
  exists ds. split; [done|]. intros A. fold A in HA, Hlen.
  destruct (agent_standardize_adv (config (self w))); split; try done.
  intros _. pose proof (std_nonneg A) as Hstd.
  assert (std (ds_As ds) = std A / (std A + 1e-8)) as Hs.
  { rewrite HA. apply std_centre_scale; [done | lra]. }
  split; [done|]. split; [|split; [done|split]].
  - rewrite HA. apply mean_centre_scale. intros HA0. rewrite HA0 in Hlen.
    simpl in Hlen. lia.
  - intros Hpos. rewrite Hs.
    replace (std A / (std A + 1e-8) - 1) with (- (1e-8 / (std A + 1e-8)))
      by (field; lra).
    rewrite Rabs_Ropp, Rabs_pos_eq.
    + apply Rmult_le_compat_l; [lra|]. apply Rinv_le_contravar; lra.
    + apply Rlt_le, Rdiv_lt_0_compat; lra.
  - intros Hz. rewrite Hs, Hz. unfold Rdiv. lra.
Qed.


(** ** Construction *)

Lemma Actor_init_run config env g :
  nn_sizes config ≠ [] →
  ∃ actor g',
    Actor_init config env g = (Ok actor, g') ∧
    (is_Some (action_head actor) ↔ supported_space (action_space env) = true).
Proof.
  intros Hsizes. unfold Actor_init.
  rewrite bind_run. unfold step at 1.
  destruct (make_fc _ _ g) as [layers g1].
  destruct (init_feature_layers_ok layers g1) as (layers' & g2 & Hl).
  rewrite (bind_ok _ _ _ _ _ Hl). unfold last_size.
  destruct (last (nn_sizes config)) as [d|] eqn:Hlast; cycle 1.
  { by apply last_None in Hlast. }
  rewrite bind_run. simpl.
  destruct (action_space env) eqn:Hspace; rewrite bind_run; simpl.
  1: { rewrite bind_run. unfold step. destruct (CategoricalHead _ _ g2).
       eexists _, _. split; [reflexivity|]. simpl. split; [done | by eexists]. }
  1: { rewrite bind_run. unfold step. destruct (DiagGaussianHead _ _ _ g2).
       eexists _, _. split; [reflexivity|]. simpl. split; [done | by eexists]. }
  all: eexists _, _; split; [reflexivity|]; simpl; split;
    [by intros [? ?] | done].
Qed.

Lemma Critic_init_run config env g :
  nn_sizes config ≠ [] → ∃ critic g', Critic_init config env g = (Ok critic, g').
Proof.
  intros Hsizes. unfold Critic_init.
  rewrite bind_run. unfold step at 1.
  destruct (make_fc _ _ g) as [layers g1].
  destruct (init_feature_layers_ok layers g1) as (layers' & g2 & Hl).
  rewrite (bind_ok _ _ _ _ _ Hl). unfold last_size.
  destruct (last (nn_sizes config)) as [d|] eqn:Hlast; cycle 1.
  { by apply last_None in Hlast. }
  rewrite bind_run. simpl. rewrite bind_run. unfold step at 1.
  destruct (nn_Linear d 1 g2) as [head g3]. rewrite bind_run. unfold step.
  destruct (ortho_init head None 1 0 g3) as [head' g4]. by eexists _, _.
Qed.

(** For a [Discrete] or [Box] action space and at least one hidden layer,
    [Actor.__init__] returns an actor with its action head, and every
    forward pass of that actor returns one distribution per row. *)
Theorem Actor_init_supported_action_space config env g :
  supported_space (action_space env) = true →
  nn_sizes config ≠ [] →
  ∃ actor g',
    Actor_init config env g = (Ok actor, g') ∧
    is_Some (action_head actor) ∧
    ∀ (St : Type) (x : list Tensor) (s : St),
      ∃ action_dist,
        Actor_forward actor x s = (Ok action_dist, s) ∧
        length action_dist = length x.
Proof.
  intros Hspace Hsizes.
  destruct (Actor_init_run config env g Hsizes) as (actor & g' & Hinit & Hhead).
  exists actor, g'. split; [done|]. apply Hhead in Hspace as Hh.
  split; [done|]. intros St x s. destruct Hh as [h Hh].
  unfold Actor_forward. rewrite Hh. eexists. split; [reflexivity|].
  by rewrite !length_map.
Qed.

(** With an empty [nn.sizes] the index [config['nn.sizes'][-1]] fails:
    constructing an actor, a critic or an agent raises [IndexError]. *)
Theorem init_empty_sizes config env g :
  nn_sizes config = [] →
  (∃ g', Actor_init config env g = (Raise IndexError, g')) ∧
  (∃ g', Critic_init config env g = (Raise IndexError, g')) ∧
  (∃ g', Agent_init config env g = (Raise IndexError, g')).
Proof.
  intros Hsizes.
  assert (∃ g', Actor_init config env g = (Raise IndexError, g')) as HA.
  { unfold Actor_init. rewrite bind_run. unfold step at 1.
    destruct (make_fc _ _ g) as [layers g1].
    destruct (init_feature_layers_ok layers g1) as (layers' & g2 & Hl).
    rewrite (bind_ok _ _ _ _ _ Hl). rewrite Hsizes. by eexists. }
  split; [done|]. split.
  - unfold Critic_init. rewrite bind_run. unfold step at 1.
    destruct (make_fc _ _ g) as [layers g1].
    destruct (init_feature_layers_ok layers g1) as (layers' & g2 & Hl).
    rewrite (bind_ok _ _ _ _ _ Hl). rewrite Hsizes. by eexists.
  - destruct HA as [g' HA]. unfold Agent_init.
    rewrite (bind_raise _ _ _ _ _ HA). by eexists.
Qed.


Lemma Agent_init_run cfg env g :
  nn_sizes cfg ≠ [] →
  ∃ agent g',
    Agent_init cfg env g = (Ok agent, g') ∧
    config agent = cfg ∧
    (is_Some (action_head (policy agent)) ↔
     supported_space (action_space env) = true) ∧
    (is_Some (policy_lr_scheduler agent) ↔
     agent_use_lr_scheduler cfg = true) ∧
    lr (value_optimizer agent) = agent_value_lr cfg.
Proof.
  intros Hsizes. unfold Agent_init.
  destruct (Actor_init_run cfg env g Hsizes) as (actor & g1 & HA & Hhead).
  rewrite (bind_ok _ _ _ _ _ HA).
  destruct (Critic_init_run cfg env g1 Hsizes) as (critic & g2 & HC).
  rewrite (bind_ok _ _ _ _ _ HC).
  destruct (agent_use_lr_scheduler cfg); simpl.
  - eexists _, _. split; [reflexivity|]. simpl.
    split; [done|]. split; [done|]. split; [|done]. split; [done | by eexists].
  - eexists _, _. split; [reflexivity|]. simpl.
    split; [done|]. split; [done|]. split; [|done].
    split; [by intros [? ?] | done].
Qed.

(** An agent constructed for a [Discrete] or [Box] action space has what
    an update needs: its policy has an action head, and the scheduler
    attribute exists exactly when [agent.use_lr_scheduler] is set. *)
Theorem Agent_init_ready cfg env g :
  supported_space (action_space env) = true →
  nn_sizes cfg ≠ [] →
  ∃ agent g',
    Agent_init cfg env g = (Ok agent, g') ∧
    ready {| self := agent; torch_rng := g' |} ∧
    (is_Some (policy_lr_scheduler agent) ↔
     agent_use_lr_scheduler cfg = true).
Proof.
  intros Hspace Hsizes.
  destruct (Agent_init_run cfg env g Hsizes)
    as (agent & g' & Hinit & Hconfig & Hhead & Hsched & _).
  exists agent, g'. split; [done|]. split; [|done].
  split; simpl; [by apply Hhead|]. rewrite Hconfig. apply Hsched.
Qed.

(** ** choose_action *)

(** The entries of the mapping that [choose_action] returns: every tensor
    has one entry per observation row, [raw_action] is the array copy of
    [action], and [action_logprob] is the log-probability of the sampled
    action under the returned distribution. *)
Theorem choose_action_entries obs w :
  is_Some (action_head (policy (self w))) →
  ∃ out action_dist action entropies V,
    (choose_action obs w).1 = Ok out ∧
    out !! "action_dist" = Some (VDist action_dist) ∧
    out !! "action" = Some (VAction action) ∧
    out !! "raw_action" = Some (VNdArray (map numpify action)) ∧
    out !! "action_logprob" =
      Some (VTensor (zip_with log_prob action_dist action)) ∧
    out !! "entropy" = Some (VTensor entropies) ∧
    out !! "V" = Some (VTensor V) ∧
    length action_dist = length obs ∧ length action = length obs ∧
    length entropies = length obs ∧ length V = length obs.
Proof.
  intros [h Hh].
  destruct (choose_action_run obs w h Hh) as (action & g & Hlen & Hrun).
  rewrite Hrun. eexists _, _, action, _, _. split; [reflexivity|].
  unfold action_out. simplify_map_eq.
  repeat split; try done; unfold policy_dist, Critic_forward;
    by rewrite !length_map.
Qed.

Lemma learn_one_update_no_head data w :
  action_head (policy (self w)) = None →
  learn_one_update data w = (Raise (AttributeError "action_head"), w).
Proof.
  intros Hh. unfold learn_one_update.
  by rewrite (bind_raise _ _ _ _ _ (choose_action_no_head _ w Hh)).
Qed.

(** The agent of an unsupported action space: construction succeeds, and
    the first [choose_action] or [learn_one_update] raises
    [AttributeError] on [action_head], leaving the agent and the random
    generator as they were. *)
Theorem unsupported_agent_fails_at_first_use cfg env g :
  supported_space (action_space env) = false →
  nn_sizes cfg ≠ [] →
  ∃ agent g',
    Agent_init cfg env g = (Ok agent, g') ∧
    ∀ w, self w = agent →
      (∀ obs, choose_action obs w = (Raise (AttributeError "action_head"), w)) ∧
      (∀ data,
         learn_one_update data w = (Raise (AttributeError "action_head"), w)).
Proof.
  intros Hspace Hsizes.
  destruct (Agent_init_run cfg env g Hsizes)
    as (agent & g' & Hinit & _ & Hhead & _).
  exists agent, g'. split; [done|]. intros w <-.
  assert (action_head (policy (self w)) = None) as Hnone.
  { destruct (action_head (policy (self w))) eqn:Hh; [|done].
    destruct Hhead as [Hhead _]. rewrite Hhead in Hspace; [done | by eexists]. }
  split; intros; [by apply choose_action_no_head | by apply learn_one_update_no_head].
Qed.

(** ** learn_one_update *)

Lemma learn_one_update_ok_ready data w out w' :
  learn_one_update data w = (Ok out, w') → ready w.
Proof.
  intros Hrun. destruct (action_head (policy (self w))) as [h|] eqn:Hh.
  2: { by rewrite (learn_one_update_no_head _ _ Hh) in Hrun. }
  split; [by rewrite Hh; eexists|]. intros Hflag.
  destruct (policy_lr_scheduler (self w)) eqn:Hs; [by eexists|]. exfalso.
  destruct (choose_action_run (map observation data) w h Hh)
    as (action & g & Hlen & Hca).
  unfold learn_one_update in Hrun.
  rewrite (bind_ok _ _ _ _ _ Hca) in Hrun.
  unfold getitem in Hrun.
  rewrite action_out_dist, action_out_entropy, action_out_V in Hrun.
  repeat (rewrite bind_run in Hrun; simpl in Hrun).
  destruct (clip_grad_norm_ _ _) as [pgrads pnorm].
  rewrite bind_run in Hrun. simpl in Hrun. rewrite Hflag in Hrun.
  repeat (rewrite bind_run in Hrun; simpl in Hrun).
  unfold LambdaLR_step in Hrun. rewrite bind_run in Hrun.
  unfold get_policy_lr_scheduler in Hrun. simpl in Hrun.
  rewrite Hs in Hrun. done.
Qed.

Lemma learn_one_update_ok_rows data w out w' :
  learn_one_update data w = (Ok out, w') → length data ≠ 1%nat.
Proof.
  intros Hrun Hrows.
  destruct (learn_one_update_ok_ready _ _ _ _ Hrun) as [[h Hh] Hsched].
  destruct (learn_one_update_single_row data w h Hh
              (conj (mk_is_Some _ _ Hh) Hsched) Hrows) as (w2 & Hraise & _).
  congruence.
Qed.

(** Every mapping that [learn_one_update] returns has exactly the eight
    diagnostic keys. *)
Theorem learn_one_update_keys data w out w' :
  learn_one_update data w = (Ok out, w') →
  dom out =
    ({[ "policy_grad_norm"; "value_grad_norm"; "policy_loss";
        "policy_entropy"; "value_loss"; "explained_variance"; "approx_kl";
        "clip_frac" ]} : gset string).
Proof.
  intros Hrun. pose proof (learn_one_update_ok_ready _ _ _ _ Hrun) as Hready.
  destruct Hready as [[h Hh] Hsched].
  destruct (learn_one_update_run data w h Hh (conj (mk_is_Some _ _ Hh) Hsched))
    as (out2 & w2 & Hrun2 & _ & _ & Hdom & _);
    [by apply learn_one_update_ok_rows in Hrun|].
  rewrite Hrun in Hrun2. by injection Hrun2 as -> _.
Qed.

Lemma sum_le x y : Forall2 Rle x y → sum x <= sum y.
Proof. induction 1; simpl; lra. Qed.

Lemma mean_le x y : Forall2 Rle x y → mean x <= mean y.
Proof.
  intros Hxy. unfold mean. rewrite (Forall2_length _ _ _ Hxy).
  destruct y as [|b y].
  - apply Forall2_nil_inv_r in Hxy as ->. lra.
  - apply Rmult_le_compat_r; [|by apply sum_le].
    apply Rlt_le, Rinv_0_lt_compat, INR_length_pos. done.
Qed.

Lemma mean_nonneg x : Forall (λ a, 0 <= a) x → 0 <= mean x.
Proof.
  intros Hx. unfold mean. destruct x as [|a x]; [simpl; lra|].
  apply Rmult_le_pos; [by apply sum_nonneg|].
  apply Rlt_le, Rinv_0_lt_compat, INR_length_pos. done.
Qed.

Lemma mean_le_1 x : Forall (λ a, a <= 1) x → mean x <= 1.
Proof.
  intros Hx. destruct x as [|a x]; [unfold mean; simpl; lra|].
  assert (sum (a :: x) <= INR (length (a :: x))) as Hsum.
  { induction Hx as [|b y Hb _ IH]; [simpl; lra|].
    rewrite sum_cons. cbn [length]. rewrite S_INR. lra. }
  pose proof (INR_length_pos (a :: x) ltac:(done)) as Hn.
  unfold mean. apply (Rmult_le_reg_r (INR (length (a :: x)))); [done|].
  unfold Rdiv. rewrite Rmult_assoc, Rinv_l; lra.
Qed.

Lemma mean_zeros {A} (x : list A) : mean (map (λ _, 0) x) = 0.
Proof.
  unfold mean. assert (sum (map (λ _ : A, 0) x) = 0) as ->.
  { induction x as [|a x IH]; simpl; [done | rewrite IH; lra]. }
  unfold Rdiv. lra.
Qed.

Lemma outside_bounds lo hi r : 0 <= outside lo hi r <= 1.
Proof.
  unfold outside. destruct (Rlt_dec r lo); [lra|].
  destruct (Rgt_dec r hi); lra.
Qed.

Lemma outside_inside lo hi r : lo <= r <= hi → outside lo hi r = 0.
Proof.
  intros [Hlo Hhi]. unfold outside.
  destruct (Rlt_dec r lo); [lra|]. destruct (Rgt_dec r hi); [lra | done].
Qed.

(** The clip fraction that an update on a minibatch of at least two rows
    reports lies between 0 and 1. *)
Theorem clip_frac_bounds data w h :
  action_head (policy (self w)) = Some h → ready w →
  (2 ≤ length data)%nat →
  ∃ out w' clip_frac,
    learn_one_update data w = (Ok out, w') ∧
    out !! "clip_frac" = Some clip_frac ∧
    0 <= clip_frac <= 1.
Proof.
  intros Hh Hready Hrows.
  destruct (learn_one_update_run data w h Hh Hready)
    as (out & w' & Hrun & _ & _ & _ & _ & _ & _ & Hclip); [lia|].
  eexists out, w', _. split; [done|]. split; [exact Hclip|]. split.
  - apply mean_nonneg, Forall_map, Forall_forall. intros r _.
    apply outside_bounds.
  - apply mean_le_1, Forall_map, Forall_forall. intros r _.
    apply outside_bounds.
Qed.

Lemma clipped_value_error_nonneg eps Vs (data : list Sample) :
  Forall (λ a, 0 <= a)
    (zip_with (λ V s, clipped_value_error eps V (old_V s) (old_Q s)) Vs data).
Proof.
  revert Vs. induction data as [|s data IH]; intros [|V Vs]; cbn [zip_with];
    [constructor | constructor | constructor |].
  constructor; [|apply IH]. unfold clipped_value_error.
  pose proof (pow2_ge_0 (V - old_Q s)).
  pose proof (Rmax_l ((V - old_Q s) ^ 2)
    ((clamp (V - old_V s) (- eps) eps + old_V s - old_Q s) ^ 2)).
  lra.
Qed.

Lemma mse_le_clipped_value_error eps Vs (data : list Sample) :
  Forall2 Rle (mse_loss Vs (map old_Q data))
    (zip_with (λ V s, clipped_value_error eps V (old_V s) (old_Q s)) Vs data).
Proof.
  unfold mse_loss. revert Vs.
  induction data as [|s data IH]; intros [|V Vs]; cbn [zip_with map];
    [constructor | constructor | constructor |].
  constructor; [|apply IH]. unfold clipped_value_error. apply Rmax_l.
Qed.

Lemma clipped_le_unclipped (c : R → R) rs As :
  Forall2 Rle (tmin (tmul rs As) (tmul (map c rs) As)) (tmul rs As).
Proof.
  unfold tmin, tmul. revert As.
  induction rs as [|r rs IH]; intros [|A As]; cbn [zip_with map];
    [constructor | constructor | constructor |].
  constructor; [apply Rmin_l | apply IH].
Qed.

(** Clipping never lowers the value loss: on a minibatch of at least two
    rows, the reported value loss is non-negative and at least the plain
    mean squared error of the current predictions against the returns. *)
Theorem value_loss_at_least_mse data w h :
  action_head (policy (self w)) = Some h → ready w →
  (2 ≤ length data)%nat →
  ∃ out w' value_loss,
    learn_one_update data w = (Ok out, w') ∧
    out !! "value_loss" = Some value_loss ∧
    0 <= value_loss ∧
    mean (mse_loss (new_Vs w data) (map old_Q data)) <= value_loss.
Proof.
  intros Hh Hready Hrows.
  destruct (learn_one_update_run data w h Hh Hready)
    as (out & w' & Hrun & _ & _ & _ & _ & Hloss & _); [lia|].
  eexists out, w', _. split; [done|]. split; [exact Hloss|].
  rewrite mean_singleton, value_error_tensor. split.
  - apply mean_nonneg, clipped_value_error_nonneg.
  - apply mean_le, mse_le_clipped_value_error.
Qed.

(** The clipped surrogate is pessimistic: on a minibatch of at least two
    rows, the reported policy loss is at least the loss of the unclipped
    objective, [-mean(ratio * A)]. *)
Theorem policy_loss_at_least_unclipped data w h :
  action_head (policy (self w)) = Some h → ready w →
  (2 ≤ length data)%nat →
  ∃ out w' policy_loss,
    learn_one_update data w = (Ok out, w') ∧
    out !! "policy_loss" = Some policy_loss ∧
    - mean (tmul (ratios w h data) (map old_A data)) <= policy_loss.
Proof.
  intros Hh Hready Hrows.
  destruct (learn_one_update_run data w h Hh Hready)
    as (out & w' & Hrun & _ & _ & _ & Hloss & _); [lia|].
  eexists out, w', _. split; [done|]. split; [exact Hloss|].
  rewrite mean_singleton, mean_neg. apply Ropp_le_contravar, mean_le.
  apply clipped_le_unclipped.
Qed.

Lemma tclamp_inside rs lo hi :
  Forall (λ r, lo <= r <= hi) rs → tclamp rs lo hi = rs.
Proof.
  unfold tclamp. induction 1 as [|r rs [Hlo Hhi] _ IH]; [done|]. simpl.
  by rewrite IH, clamp_id.
Qed.

Lemma tmin_diag x : tmin x x = x.
Proof.
  unfold tmin. induction x as [|a x IH]; [done|]. cbn [zip_with].
  rewrite IH, Rmin_left; [done | lra].
Qed.

Lemma tmax_diag x : tmax x x = x.
Proof.
  unfold tmax. induction x as [|a x IH]; [done|]. cbn [zip_with].
  rewrite IH, Rmax_left; [done | lra].
Qed.

(** While every importance ratio of a minibatch of at least two rows lies
    inside the clip band [[1 - eps, 1 + eps]], clipping is inactive: the
    policy loss is that of the unclipped objective and the clip fraction
    is 0. *)
Theorem inside_clip_band_unclipped data w h :
  action_head (policy (self w)) = Some h → ready w →
  (2 ≤ length data)%nat →
  Forall (λ ratio, 1 - agent_clip_range (config (self w)) <= ratio
                   <= 1 + agent_clip_range (config (self w)))
    (ratios w h data) →
  ∃ out w',
    learn_one_update data w = (Ok out, w') ∧
    out !! "policy_loss" =
      Some (- mean (tmul (ratios w h data) (map old_A data))) ∧
    out !! "clip_frac" = Some 0.
Proof.
  intros Hh Hready Hrows Hband.
  destruct (learn_one_update_run data w h Hh Hready)
    as (out & w' & Hrun & _ & _ & _ & Hloss & _ & _ & Hclip); [lia|].
  exists out, w'. split; [done|]. split.
  - rewrite Hloss, mean_singleton, mean_neg.
    by rewrite (tclamp_inside _ _ _ Hband), tmin_diag.
  - rewrite Hclip. f_equal.
    rewrite (map_ext_Forall _ (λ _, 0)); [apply mean_zeros|].
    eapply Forall_impl; [exact Hband|]. intros r Hr. simpl.
    by apply outside_inside.
Qed.

(** While every current value prediction of a minibatch of at least two
    rows is within [eps] of its cached old value, value clipping is
    inactive: the value loss is the plain mean squared error against the
    returns. *)
Theorem value_inside_clip_band_mse data w h :
  action_head (policy (self w)) = Some h → ready w →
  (2 ≤ length data)%nat →
  Forall (λ d, - agent_clip_range (config (self w)) <= d
               <= agent_clip_range (config (self w)))
    (tsub (new_Vs w data) (map old_V data)) →
  length (new_Vs w data) = length data ∧
  ∃ out w',
    learn_one_update data w = (Ok out, w') ∧
    out !! "value_loss" =
      Some (mean (mse_loss (new_Vs w data) (map old_Q data))).
Proof.
  intros Hh Hready Hrows Hband. split.
  { unfold new_Vs, Critic_forward. by rewrite !length_map. }
  destruct (learn_one_update_run data w h Hh Hready)
    as (out & w' & Hrun & _ & _ & _ & _ & Hloss & _); [lia|].
  exists out, w'. split; [done|].
  rewrite Hloss, mean_singleton, (tclamp_inside _ _ _ Hband). do 2 f_equal.
  assert (length (new_Vs w data) = length (map old_V data)) as Hlen.
  { unfold new_Vs, Critic_forward. by rewrite !length_map. }
  assert (tadd (map old_V data) (tsub (new_Vs w data) (map old_V data)) =
          new_Vs w data) as ->; [|apply tmax_diag].
  revert Hlen. generalize (new_Vs w data) (map old_V data). clear.
  unfold tadd, tsub. intros Vs. induction Vs as [|V Vs IH];
    intros [|o os] Hlen; simpl in *; try done.
  rewrite IH by lia. f_equal. lra.
Qed.

(** With the parameters that produced the old log-probabilities, and a
    non-negative clip range, an update on a minibatch of at least two rows
    reports an approximate KL of 0 and a clip fraction of 0. *)
Theorem unchanged_policy_diagnostics data w h :
  action_head (policy (self w)) = Some h → ready w →
  (2 ≤ length data)%nat →
  map old_logprob data = new_logprobs w h data →
  0 <= agent_clip_range (config (self w)) →
  ∃ out w',
    learn_one_update data w = (Ok out, w') ∧
    out !! "approx_kl" = Some 0 ∧
    out !! "clip_frac" = Some 0.
Proof.
  intros Hh Hready Hrows Hold Heps.
  destruct (learn_one_update_run data w h Hh Hready)
    as (out & w' & Hrun & _ & _ & _ & _ & _ & Hkl & Hclip); [lia|].
  exists out, w'. split; [done|]. split.
  - rewrite Hkl, <- Hold. f_equal.
    assert (tsub (map old_logprob data) (map old_logprob data) =
            map (λ _, 0) data) as ->; [|apply mean_zeros].
    unfold tsub. clear. induction data as [|s data IH]; [done|].
    cbn [zip_with map]. by rewrite IH, Rminus_diag.
  - rewrite Hclip, (ratios_unchanged_policy w h data Hold), map_map. f_equal.
    rewrite (map_ext _ (λ _, 0)); [apply mean_zeros|].
    intros s. apply outside_inside. lra.
Qed.

Lemma scheduled_lr_ext s s' n :
  base_lr s = base_lr s' → sched_N s = sched_N s' →
  sched_min_lr s = sched_min_lr s' → scheduled_lr s n = scheduled_lr s' n.
Proof. unfold scheduled_lr. by intros -> -> ->. Qed.

Lemma learn_one_update_scheduled data w h s :
  action_head (policy (self w)) = Some h →
  agent_use_lr_scheduler (config (self w)) = true →
  policy_lr_scheduler (self w) = Some s →
  ∃ out w',
    learn_one_update data w =
      (if decide (length data = 1%nat) then Raise explained_variance_error
       else Ok out, w') ∧
    dom out = update_keys ∧
    is_Some (action_head (policy (self w'))) ∧
    same_step w w' ∧
    scheduler_at s (total_timestep (self w)) w' ∧
    lr (policy_optimizer (self w')) = scheduled_lr s (total_timestep (self w)) ∧
    lr (value_optimizer (self w')) = lr (value_optimizer (self w)).
Proof.
  intros Hh Hflag Hs.
  destruct (choose_action_run (map observation data) w h Hh)
    as (action & g & Hlen & Hca).
  unfold learn_one_update.
  rewrite (bind_ok _ _ _ _ _ Hca).
  unfold getitem.
  rewrite action_out_dist, action_out_entropy, action_out_V.
  repeat (rewrite bind_run; simpl).
  destruct (clip_grad_norm_ _ _) as [pgrads pnorm].
  rewrite bind_run. simpl. rewrite Hflag.
  repeat (rewrite bind_run; simpl).
  unfold LambdaLR_step. rewrite bind_run. unfold get_policy_lr_scheduler.
  simpl. rewrite Hs.
  unfold modify at 1. repeat (rewrite bind_run; simpl).
  destruct (clip_grad_norm_ _ _) as [vgrads vnorm].
  rewrite bind_run. simpl. rewrite bind_run, ev_run.
  assert (length (Critic_forward (value (self w)) (map observation data)) =
          length data) as ->.
  { unfold Critic_forward. by rewrite !length_map. }
  eexists _, _. split.
  { destruct (decide (length data = 1%nat)); reflexivity. }
  split. { unfold update_keys. rewrite !dom_insert_L, dom_empty_L. set_solver. }
  unfold on_self, same_step, scheduler_at. simpl.
  match goal with
  | |- context [adam_update ?a ?b pgrads ?c] =>
      pose proof (adam_update_action_head a b pgrads c) as Hhead;
      destruct (adam_update a b pgrads c) as [p' pm]
  end.
  simpl in *.
  destruct (adam_update _ _ vgrads _) as [v' vm]. simpl.
  split. { apply Hhead. rewrite Hh. by eexists. }
  split; [done|]. split; [|done].
  eexists. split; [reflexivity|]. done.
Qed.

(** With LR scheduling enabled, an update steps the scheduler with the
    agent's total-timestep counter: in the state it leaves, whether it
    returns or raises on a minibatch of one row, the scheduler's epoch is
    the counter, the policy optimizer's learning rate is the scheduled rate
    for the counter, and the value optimizer's rate is untouched; and it
    returns when the minibatch has at least two rows. *)
Theorem update_steps_scheduler_with_counter data w h s :
  action_head (policy (self w)) = Some h →
  agent_use_lr_scheduler (config (self w)) = true →
  policy_lr_scheduler (self w) = Some s →
  (∃ s',
     policy_lr_scheduler (self (learn_one_update data w).2) = Some s' ∧
     last_epoch s' = total_timestep (self w) ∧
     lr (policy_optimizer (self (learn_one_update data w).2)) =
       base_lr s * linear_lr_lambda (sched_N s) (sched_min_lr s) (base_lr s)
                     (total_timestep (self w)) ∧
     lr (value_optimizer (self (learn_one_update data w).2)) =
       lr (value_optimizer (self w))) ∧
  ((2 ≤ length data)%nat → returns (learn_one_update data) w = true).
Proof.
  intros Hh Hflag Hs.
  destruct (learn_one_update_scheduled data w h s Hh Hflag Hs)
    as (out & w' & Hrun & _ & _ & _ & (s' & Hs' & _ & _ & _ & Hlast) & Hlr & Hvlr).
  unfold returns. rewrite Hrun. simpl. split; [by exists s'|].
  intros Hrows. rewrite decide_False by lia. done.
Qed.

(** Without LR scheduling, an update changes neither optimizer's learning
    rate. *)
Theorem update_keeps_learning_rates data w out w' :
  agent_use_lr_scheduler (config (self w)) = false →
  learn_one_update data w = (Ok out, w') →
  lr (policy_optimizer (self w')) = lr (policy_optimizer (self w)) ∧
  lr (value_optimizer (self w')) = lr (value_optimizer (self w)).
Proof.
  intros Hflag Hrun.
  destruct (learn_one_update_ok_ready _ _ _ _ Hrun) as [[h Hh] _].
  destruct (choose_action_run (map observation data) w h Hh)
    as (action & g & Hlen & Hca).
  revert Hrun. unfold learn_one_update.
  rewrite (bind_ok _ _ _ _ _ Hca).
  unfold getitem.
  rewrite action_out_dist, action_out_entropy, action_out_V.
  repeat (rewrite bind_run; simpl).
  destruct (clip_grad_norm_ _ _) as [pgrads pnorm].
  rewrite bind_run. simpl. rewrite Hflag.
  repeat (rewrite bind_run; simpl).
  destruct (clip_grad_norm_ _ _) as [vgrads vnorm].
  rewrite bind_run. simpl. rewrite bind_run, ev_run.
  destruct (decide _); [done|]. simpl. intros [= _ <-].
  unfold on_self. simpl.
  destruct (adam_update _ _ pgrads _) as [p' pm]. simpl.
  by destruct (adam_update _ _ vgrads _) as [v' vm].
Qed.

(** ** learn: rejected batches *)

(** An empty batch is rejected by the concatenation of the last
    observations, before anything is changed. *)
Theorem learn_rejects_empty_batch w :
  learn [] w =
    (Raise (ValueError "need at least one array to concatenate"), w).
Proof. reflexivity. Qed.

Lemma cat_info_raises {St} key D (s : St) :
  Exists (λ traj, steps traj = []) D →
  mapM (cat_info key) D s =
    (Raise (RuntimeError "torch.cat: expected a non-empty list of Tensors"), s).
Proof.
  induction D as [|traj D IH]; intros Hex; [by apply Exists_nil in Hex|].
  rewrite mapM_cons, bind_run. unfold cat_info at 1.
  destruct (steps traj) as [|st sts] eqn:Hsteps; [done|]. simpl.
  apply Exists_cons in Hex as [Hex|Hex]; [congruence|].
  by rewrite bind_run, (IH Hex).
Qed.

(** A batch with a trajectory of no steps is rejected by [torch.cat] on
    its cached log-probabilities, before anything is changed. *)
Theorem learn_rejects_empty_trajectory D w :
  Exists (λ traj, len traj = 0%nat) D →
  learn D w =
    (Raise (RuntimeError "torch.cat: expected a non-empty list of Tensors"), w).
Proof.
  intros Hex. unfold learn, learn_dataset.
  assert (Exists (λ traj, steps traj = []) D) as Hex'.
  { eapply Exists_impl; [exact Hex|]. intros traj. unfold len.
    by destruct (steps traj). }
  by rewrite !bind_run, (cat_info_raises info_action_logprob D w Hex').
Qed.

(** A batch of exactly one timestep fails the assertion on the number of
    dimensions: squeezing removes the only dimension of its tensors.  The
    agent is left unchanged. *)
Theorem learn_rejects_single_timestep D w :
  D ≠ [] → Forall (λ traj, steps traj ≠ []) D →
  sum_list (map len D) = 1%nat →
  learn D w = (Raise AssertionError, w).
Proof.
  intros HD Hsteps Hone. unfold learn. rewrite bind_run.
  assert (learn_dataset D w = (Raise AssertionError, w)) as ->; [|done].
  unfold learn_dataset.
  rewrite (bind_ok _ _ _ _ _ (cat_info_all info_action_logprob D w Hsteps)).
  rewrite (bind_ok _ _ _ _ _ (cat_info_all info_entropy D w Hsteps)).
  rewrite (bind_ok _ _ _ _ _ (cat_info_all info_V D w Hsteps)).
  assert (length D ≠ 0%nat) as HlenD by by apply nonempty_length.
  rewrite (bind_ok _ _ _ _ _ (np_concatenate_ok _ w
    (proj2 (nonempty_length _) ltac:(by rewrite length_map)))).
  rewrite concat_singletons.
  do 3 (rewrite bind_run; simpl).
  fold (last_values w D).
  assert (length (last_values w D) = length D) as Hlast.
  { unfold last_values, Critic_forward. by rewrite !length_map. }
  assert (∀ key, flat_info key D ≠ []) as Hflat.
  { intros key. apply nonempty_length. unfold flat_info. by rewrite length_map. }
  rewrite !(bind_ok _ _ _ _ _ (torch_cat_ok _ w (Hflat _))).
  match goal with
  | |- context [np_concatenate ?x] =>
      assert (x ≠ []) as HQ
        by (apply nonempty_length; by rewrite length_zip_with, Hlast, Nat.min_id);
      rewrite (bind_ok _ _ _ _ _ (np_concatenate_ok x w HQ))
  end.
  match goal with
  | |- context [np_concatenate ?x] =>
      assert (x ≠ []) as HA0
        by (apply nonempty_length; unfold flat_info;
            by rewrite length_zip_with, length_zip, length_map, Hlast, !Nat.min_id);
      rewrite (bind_ok _ _ _ _ _ (np_concatenate_ok x w HA0))
  end.
  rewrite bind_run; simpl.
  assert (∀ key, squeezed_ndimension (concat (flat_info key D)) = 0%nat) as Hnd.
  { intros key. unfold squeezed_ndimension, flat_info.
    rewrite length_flat. by case_decide. }
  rewrite !Hnd. reflexivity.
Qed.

(** With no epoch configured, [learn] raises on the unassigned [logs], but
    only after it has advanced the counter: the failed call still counts
    the timesteps of its batch. *)
Theorem learn_zero_epochs_advances_counter D w :
  (train_num_epochs (config (self w)) ≤ 0)%Z →
  ready w → well_formed_batch D →
  train_batch_size (config (self w)) ≠ 0%nat →
  ∃ w',
    learn D w = (Raise (UnboundLocalError "logs"), w') ∧
    total_timestep (self w') =
      (total_timestep (self w) + sum_list (map len D))%nat.
Proof.
  intros Hn Hready HD Hbs.
  destruct (learn_zero_epochs D w Hn) as (e & w' & Hrun & He).
  destruct (He Hready HD Hbs) as [-> Htotal]. by exists w'.
Qed.

(** ** learn: repeated calls *)

#[local] Instance keeps_ready_preorder : PreOrder keeps_ready.
Proof.
  split; [intros w Hw; exact Hw | intros x y z Hxy Hyz Hx; exact (Hyz (Hxy Hx))].
Qed.

Lemma preserves_weaken {A} (R R' : relation World) (m : Py World A) :
  (∀ w w', R w w' → R' w w') → preserves R m → preserves R' m.
Proof. intros HR Hm w. apply HR, Hm. Qed.

Lemma same_self_keeps_ready w w' : same_self w w' → keeps_ready w w'.
Proof. unfold same_self, keeps_ready, ready. by intros ->. Qed.

Lemma learn_one_update_keeps_ready data :
  preserves keeps_ready (learn_one_update data).
Proof.
  intros w Hready. pose proof Hready as [[h Hh] _].
  destruct (learn_one_update_core data w h Hh Hready) as (? & ? & -> & ? & _).
  done.
Qed.

Lemma learn_epoch_keeps_ready dataloader :
  preserves keeps_ready (learn_epoch dataloader).
Proof.
  unfold learn_epoch, for_data_in.
  apply preserves_bind; [apply _ | | intros perm].
  { apply (preserves_weaken same_self); [apply same_self_keeps_ready|].
    apply preserves_random. }
  apply preserves_mapM; [apply _ | intros idx].
  apply preserves_bind; [apply _ | | intros data].
  - apply preserves_mapM; [apply _ | intros i]. unfold Dataset_getitem. py_frame.
  - apply learn_one_update_keeps_ready.
Qed.

Lemma learn_keeps_ready D : preserves keeps_ready (learn D).
Proof.
  rewrite learn_unfold.
  apply preserves_bind; [apply _ | | intros ds].
  { apply (preserves_weaken same_self); [apply same_self_keeps_ready|].
    apply learn_dataset_same_self. }
  apply preserves_bind; [apply _ | apply preserves_gets, _ | intros bs].
  apply preserves_bind; [apply _ | apply DataLoader_init_preserves, _ | intros dl].
  apply preserves_bind; [apply _ | apply preserves_gets, _ | intros n].
  apply preserves_bind; [apply _ | | intros logs].
  { apply preserves_for_assign; [apply _ | intros _].
    apply learn_epoch_keeps_ready. }
  apply preserves_bind; [apply _ | | intros _].
  { apply preserves_modify. by intros w Hw. }
  apply (preserves_weaken same_self); [apply same_self_keeps_ready|].
  apply learn_report_same_self.
Qed.

Lemma learn_calls_run Ds w :
  ready w → Forall well_formed_batch Ds →
  train_batch_size (config (self w)) ≠ 0%nat →
  Forall (λ D, single_row_free (train_batch_size (config (self w)))
                 (sum_list (map len D))) Ds →
  (1 ≤ train_num_epochs (config (self w)))%Z →
  ∃ outs w', mapM learn Ds w = (Ok outs, w') ∧ ready w' ∧
             length outs = length Ds.
Proof.
  intros Hready HDs Hbs Hrows Hn.
  destruct (mapM_total
              (λ s, ready s ∧ config (self s) = config (self w))
              (λ _, True) learn Ds w)
    as (outs & w' & Hrun & [Hr _] & _ & Hlen); [|done|by eauto].
  eapply Forall_impl; [apply Forall_and; split; [exact HDs | exact Hrows]|].
  intros D [HD HDrows] s [Hs Hc]. simpl in HDrows.
  destruct (learn_returns D s Hs HD) as (out & s' & Hrun);
    [by rewrite Hc | by rewrite Hc | by rewrite Hc |].
  exists out, s'. split; [done|]. split; [|done]. split.
  - by apply (preserved_run keeps_ready _ _ _ _ (learn_keeps_ready D) Hrun).
  - apply learn_total_timestep in Hrun as [_ Hc']. congruence.
Qed.

(** [learn] can be called again and again: on a ready agent with a
    positive batch size and at least one epoch, every call of a sequence
    over well-formed batches that leave no minibatch of one row (a batch
    size other than 1, and a number of timesteps whose remainder by the
    batch size is not 1) returns, the agent stays ready, and the counter
    ends at the initial count plus all the timesteps. *)
Theorem learn_calls_return Ds w :
  ready w → Forall well_formed_batch Ds →
  train_batch_size (config (self w)) ≠ 0%nat →
  Forall (λ D, single_row_free (train_batch_size (config (self w)))
                 (sum_list (map len D))) Ds →
  (1 ≤ train_num_epochs (config (self w)))%Z →
  ∃ outs w',
    mapM learn Ds w = (Ok outs, w') ∧
    length outs = length Ds ∧
    ready w' ∧
    total_timestep (self w') =
      (total_timestep (self w) +
       sum_list (map (λ D, sum_list (map len D)) Ds))%nat.
Proof.
  intros Hready HDs Hbs Hrows Hn.
  destruct (learn_calls_run Ds w Hready HDs Hbs Hrows Hn)
    as (outs & w' & Hrun & Hr & Hlen).
  exists outs, w'. split; [done|]. split; [done|]. split; [done|].
  by apply learn_calls_total_timestep in Hrun.
Qed.

(** A freshly constructed agent for a supported action space learns: the
    construction returns, and any sequence of [learn] calls over
    well-formed batches that leave no minibatch of one row returns one
    mapping per call. *)
Theorem fresh_agent_learns cfg env g Ds :
  supported_space (action_space env) = true →
  nn_sizes cfg ≠ [] →
  train_batch_size cfg ≠ 0%nat →
  (1 ≤ train_num_epochs cfg)%Z →
  Forall well_formed_batch Ds →
  Forall (λ D, single_row_free (train_batch_size cfg) (sum_list (map len D)))
    Ds →
  ∃ agent g' outs w',
    Agent_init cfg env g = (Ok agent, g') ∧
    mapM learn Ds {| self := agent; torch_rng := g' |} = (Ok outs, w') ∧
    length outs = length Ds.
Proof.
  intros Hspace Hsizes Hbs Hn HDs Hrows.
  destruct (Agent_init_run cfg env g Hsizes)
    as (agent & g' & Hinit & Hconfig & Hhead & Hsched & _).
  assert (ready {| self := agent; torch_rng := g' |}) as Hready.
  { split; simpl; [by apply Hhead | rewrite Hconfig; apply Hsched]. }
  destruct (learn_calls_run Ds {| self := agent; torch_rng := g' |} Hready HDs)
    as (outs & w' & Hrun & _ & Hlen); simpl; [by rewrite Hconfig..|].
  by exists agent, g', outs, w'.
Qed.

(** ** learn: the scheduler across a call *)

Lemma mapM_total_step {St A B} (I J : St → Prop) (Φ : B → Prop)
    (f : A → Py St B) l s :
  (∀ s, J s → I s) →
  Forall (λ a, ∀ s, I s → ∃ b s', f a s = (Ok b, s') ∧ J s' ∧ Φ b) l →
  l ≠ [] → I s →
  ∃ bs s', mapM f l s = (Ok bs, s') ∧ J s' ∧ Forall Φ bs.
Proof.
  intros HJI Hl Hne Hs. destruct l as [|a l]; [done|].
  apply Forall_cons in Hl as [Ha Hl].
  destruct (Ha s Hs) as (b & s1 & Hb & Hs1 & HΦ).
  destruct (mapM_total J Φ f l s1) as (bs & s2 & Hbs & Hs2 & HΦs & _);
    [|done|].
  { eapply Forall_impl; [exact Hl|]. intros a' Ha' s' Hs'. by apply Ha', HJI. }
  exists (b :: bs), s2. rewrite mapM_cons, (bind_ok _ _ _ _ _ Hb).
  rewrite (bind_ok _ _ _ _ _ Hbs). by repeat split; [|constructor].
Qed.

Lemma for_assign_total_step {St A B} (I J : St → Prop) (Φ : B → Prop)
    (xs : list A) (body : A → Py St B) var s :
  (∀ s, J s → I s) →
  (∀ x s, I s → ∃ b s', body x s = (Ok b, s') ∧ J s' ∧ Φ b) →
  I s → xs ≠ [] →
  ∃ b s', for_assign xs body var s = (Ok (Some b), s') ∧ J s' ∧ Φ b.
Proof.
  intros HJI Hbody Hs Hne. destruct xs as [|x xs]; [done|].
  destruct (Hbody x s Hs) as (b & s1 & Hb & Hs1 & HΦ).
  cbn [for_assign]. rewrite (bind_ok _ _ _ _ _ Hb).
  destruct xs as [|x' xs]; [by exists b, s1|].
  apply (for_assign_total J Φ); [|done|done].
  intros y s' Hs'. by apply Hbody, HJI.
Qed.

Lemma batched_nonempty batch_size idx :
  idx ≠ [] → batched batch_size idx ≠ [].
Proof. by destruct idx. Qed.

Lemma randperm_nonempty n g : n ≠ 0%nat → (randperm n g).1 ≠ [].
Proof.
  intros Hn Hnil. pose proof (randperm_Permutation n g) as Hperm.
  rewrite Hnil in Hperm. apply Permutation_length in Hperm.
  rewrite length_seq in Hperm. simpl in Hperm. lia.
Qed.

(** The state of the agent along the updates of a call with scheduling:
    head present, configuration [c], counter [t0], scheduler derived from
    [s0]. *)
Lemma learn_epoch_scheduled dataloader w c t0 s0 :
  agent_use_lr_scheduler c = true →
  ds_wf (dl_dataset dataloader) →
  Dataset_len (dl_dataset dataloader) ≠ 0%nat →
  dl_batch_size dataloader ≠ 0%nat →
  single_row_free (dl_batch_size dataloader)
    (Dataset_len (dl_dataset dataloader)) →
  is_Some (action_head (policy (self w))) →
  config (self w) = c → total_timestep (self w) = t0 →
  (∃ e, scheduler_at s0 e w) →
  ∃ logs w',
    learn_epoch dataloader w = (Ok logs, w') ∧
    (is_Some (action_head (policy (self w'))) ∧
     config (self w') = c ∧ total_timestep (self w') = t0 ∧
     scheduler_at s0 t0 w') ∧
    Forall (λ out, dom out = update_keys) logs.
Proof.
  intros Hflag Hwf Hlen Hbs Hrows Hhead Hc Ht Hs.
  unfold learn_epoch, for_data_in.
  rewrite bind_run. unfold random, zoom, step.
  pose proof (randperm_Permutation (Dataset_len (dl_dataset dataloader))
                (torch_rng w)) as Hperm.
  pose proof (randperm_nonempty _ (torch_rng w) Hlen) as Hne.
  destruct (randperm _ _) as [perm g]. simpl in Hperm, Hne.
  apply (mapM_total_step
           (λ s, is_Some (action_head (policy (self s))) ∧
                 config (self s) = c ∧ total_timestep (self s) = t0 ∧
                 ∃ e, scheduler_at s0 e s)).
  - intros s (? & ? & ? & ?). eauto 10.
  - eapply Forall_impl; [apply (batched_checked _ _ _ Hperm Hbs Hrows)|].
    intros idx [Hidx Hone] s
      ([h Hh] & Hcs & Hts & e & sch & Hsch & Hb & HN & Hm & _).
    simpl in Hidx.
    destruct (collate_rows _ idx s Hwf Hidx) as (data & Hdata & Hdlen).
    rewrite (bind_ok _ _ _ _ _ Hdata).
    destruct (learn_one_update_scheduled data s h sch Hh)
      as (out & s' & Hrun & Hdom & Hh' & [Ht' Hc'] & Hs' & _);
      [by rewrite Hcs | done |].
    rewrite decide_False in Hrun by by rewrite Hdlen.
    exists out, s'. split; [done|]. split; [|done].
    split; [done|]. split; [congruence|]. split; [congruence|].
    destruct Hs' as (sch' & ? & ? & ? & ? & ?).
    exists sch'. rewrite Hts in *. repeat split; congruence.
  - by apply batched_nonempty.
  - by repeat split.
Qed.

Lemma learn_report_current_lr logs w out w' s :
  learn_report logs w = (Ok out, w') →
  agent_use_lr_scheduler (config (self w)) = true →
  policy_lr_scheduler (self w) = Some s →
  out !! "current_lr" = Some (DList [scheduled_lr s (last_epoch s)]).
Proof.
  unfold learn_report. intros Hrun Hflag Hs.
  apply bind_inv in Hrun as (flag & w1 & H1 & Hrun).
  injection H1 as <- <-. rewrite Hflag in Hrun.
  apply bind_inv in Hrun as (out0 & w2 & H2 & Hrun).
  apply bind_inv in H2 as (rate & w1 & H2 & H3). injection H3 as <- _.
  unfold LambdaLR_get_lr in H2. rewrite bind_run in H2.
  unfold get_policy_lr_scheduler in H2. rewrite Hs in H2. simpl in H2.
  injection H2 as <- _.
  do 8 (apply bind_inv in Hrun as (? & ? & _ & Hrun)).
  injection Hrun as <- _. by simplify_map_eq.
Qed.

(** With LR scheduling enabled, the [current_lr] that [learn] reports is
    the scheduled rate for the counter as it was before the call: the
    updates step the scheduler with the counter, and the counter is
    advanced only after the epoch loop.  Stated for the batches that leave
    no minibatch of one row, on which [learn] returns. *)
Theorem learn_reports_rate_of_previous_count D w s :
  ready w → well_formed_batch D →
  train_batch_size (config (self w)) ≠ 0%nat →
  single_row_free (train_batch_size (config (self w))) (sum_list (map len D)) →
  (1 ≤ train_num_epochs (config (self w)))%Z →
  agent_use_lr_scheduler (config (self w)) = true →
  policy_lr_scheduler (self w) = Some s →
  ∃ out w',
    learn D w = (Ok out, w') ∧
    out !! "current_lr" =
      Some (DList [base_lr s *
                   linear_lr_lambda (sched_N s) (sched_min_lr s) (base_lr s)
                     (total_timestep (self w))]) ∧
    total_timestep (self w') =
      (total_timestep (self w) + sum_list (map len D))%nat.
Proof.
  intros [Hhead _] HD Hbs Hrows Hn Hflag Hs.
  pose proof HD as (HDne & Hsteps & Hone).
  rewrite learn_unfold.
  destruct (learn_dataset_run D w HD) as (ds & Hds & Hwf & Hlen & _).
  rewrite (bind_ok _ _ _ _ _ Hds). rewrite bind_run. simpl.
  destruct (train_batch_size (config (self w))) as [|bs] eqn:Hb; [done|].
  rewrite bind_run. simpl. rewrite bind_run. simpl.
  assert (Dataset_len ds ≠ 0%nat) as Hds0.
  { rewrite Hlen. destruct D as [|traj D]; [done|].
    apply Forall_cons in Hsteps as [Ht _]. simpl. unfold len at 1.
    destruct (steps traj); [done | simpl; lia]. }
  destruct (for_assign_total_step
              (λ s', is_Some (action_head (policy (self s'))) ∧
                     config (self s') = config (self w) ∧
                     total_timestep (self s') = total_timestep (self w) ∧
                     ∃ e, scheduler_at s e s')
              (λ s', is_Some (action_head (policy (self s'))) ∧
                     config (self s') = config (self w) ∧
                     total_timestep (self s') = total_timestep (self w) ∧
                     scheduler_at s (total_timestep (self w)) s')
              (Forall (λ out : gmap string R, dom out = update_keys))
              (range (train_num_epochs (config (self w))))
              (λ _, learn_epoch {| dl_dataset := ds; dl_batch_size := S bs |})
              None w)
    as (logs & w1 & Hloop & (Hh1 & Hc1 & Ht1 & sch & Hsch & Hb1 & HN1 & Hm1 & He1)
        & Hlogs).
  - intros s' (? & ? & ? & ?). eauto 10.
  - intros _ s' (Hh' & Hc' & Ht' & Hs').
    apply (learn_epoch_scheduled _ s' (config (self w))); try done.
    simpl. by rewrite Hlen.
  - repeat split; [done..|]. exists (last_epoch s), s. by repeat split.
  - by apply range_pos.
  - rewrite (bind_ok _ _ _ _ _ Hloop). rewrite bind_run. simpl.
    destruct (learn_report_run logs
                (on_self (λ a, set_total_timestep
                                 (total_timestep a + sum_list (map len D)) a) w1))
      as [out Hout]; [simpl; by rewrite Hsch; eauto | done |].
    rewrite Hout. eexists _, _. split; [reflexivity|]. split.
    + rewrite (learn_report_current_lr _ _ _ _ sch Hout);
        [| simpl; by rewrite Hc1 | done].
      rewrite He1. unfold scheduled_lr. by rewrite Hb1, HN1, Hm1.
    + simpl. by rewrite Ht1.
Qed.

(** ** learn: an agent without an action head *)

Lemma learn_epoch_no_head dataloader w :
  action_head (policy (self w)) = None →
  ds_wf (dl_dataset dataloader) →
  Dataset_len (dl_dataset dataloader) ≠ 0%nat →
  ∃ g, learn_epoch dataloader w =
         (Raise (AttributeError "action_head"), set_rng g w).
Proof.
  intros Hh Hwf Hlen. unfold learn_epoch, for_data_in.
  rewrite bind_run. unfold random, zoom, step.
  pose proof (randperm_Permutation (Dataset_len (dl_dataset dataloader))
                (torch_rng w)) as Hperm.
  pose proof (randperm_nonempty _ (torch_rng w) Hlen) as Hne.
  destruct (randperm _ _) as [perm g]. simpl in Hperm, Hne.
  assert (Forall (λ i, (i < Dataset_len (dl_dataset dataloader))%nat) perm)
    as Hlt.
  { rewrite Hperm. apply Forall_seq. lia. }
  pose proof (batched_fuel_Forall _ (length perm) (dl_batch_size dataloader)
                _ Hlt) as Hb.
  pose proof (batched_nonempty (dl_batch_size dataloader) perm Hne) as Hbne.
  unfold batched in *.
  destruct (batched_fuel _ _ perm) as [|idx rest]; [done|].
  apply Forall_cons in Hb as [Hidx _].
  destruct (collate_ok _ idx (set_rng g w) Hwf Hidx) as [data Hdata].
  exists g. rewrite mapM_cons, bind_run, bind_run, Hdata.
  by rewrite (learn_one_update_no_head data (set_rng g w) Hh).
Qed.

(** [learn] on an agent whose policy has no action head (an unsupported
    action space): the first update raises [AttributeError], no network,
    optimizer or counter is changed. *)
Theorem learn_without_head_raises D w :
  action_head (policy (self w)) = None →
  well_formed_batch D →
  train_batch_size (config (self w)) ≠ 0%nat →
  (1 ≤ train_num_epochs (config (self w)))%Z →
  ∃ w',
    learn D w = (Raise (AttributeError "action_head"), w') ∧
    self w' = self w.
Proof.
  intros Hh HD Hbs Hn. pose proof HD as (HDne & Hsteps & Hone).
  rewrite learn_unfold.
  destruct (learn_dataset_run D w HD) as (ds & Hds & Hwf & Hlen & _).
  rewrite (bind_ok _ _ _ _ _ Hds). rewrite bind_run. simpl.
  destruct (train_batch_size (config (self w))) as [|bs] eqn:Hb; [done|].
  rewrite bind_run. simpl. rewrite bind_run. simpl.
  assert (Dataset_len ds ≠ 0%nat) as Hds0.
  { rewrite Hlen. destruct D as [|traj D]; [done|].
    apply Forall_cons in Hsteps as [Ht _]. simpl. unfold len at 1.
    destruct (steps traj); [done | simpl; lia]. }
  pose proof (range_pos _ Hn) as Hrange.
  destruct (range (train_num_epochs (config (self w)))) as [|x xs]; [done|].
  destruct (learn_epoch_no_head {| dl_dataset := ds; dl_batch_size := S bs |}
              w Hh Hwf Hds0) as [g Hepoch].
  cbn [for_assign]. rewrite bind_run, bind_run, Hepoch. by eexists.
Qed.

(** ** Minibatches of one row *)


Lemma mapM_raise_at {St A B} (I : St → Prop) (P : A → Prop)
    `{!∀ a, Decision (P a)} (e : exn) (f : A → Py St B) l s :
  Forall (λ a, ∀ s, I s →
            ∃ b s', f a s = (if decide (P a) then Raise e else Ok b, s') ∧
                    I s') l →
  Exists P l → I s →
  ∃ s', mapM f l s = (Raise e, s') ∧ I s'.
Proof.
  revert s. induction l as [|a l IH]; intros s Hl Hex Hs.
  { by apply Exists_nil in Hex. }
  apply Forall_cons in Hl as [Ha Hl].
  destruct (Ha s Hs) as (b & s1 & Hrun & Hs1).
  rewrite mapM_cons. destruct (decide (P a)) as [HP|HP].
  - exists s1. by rewrite (bind_raise _ _ _ _ _ Hrun).
  - apply Exists_cons in Hex as [Hex|Hex]; [done|].
    destruct (IH s1 Hl Hex Hs1) as (s2 & Hrest & Hs2).
    exists s2. rewrite (bind_ok _ _ _ _ _ Hrun).
    by rewrite (bind_raise _ _ _ _ _ Hrest).
Qed.

Lemma not_single_row_free batch_size n :
  ¬ single_row_free batch_size n →
  batch_size = 1%nat ∨ n `mod` batch_size = 1%nat.
Proof.
  intros Hnot. destruct (decide (batch_size = 1%nat)); [by left|].
  destruct (decide (n `mod` batch_size = 1%nat)); [by right|].
  by destruct Hnot.
Qed.

Lemma batched_fuel_single_row fuel batch_size idx :
  batch_size ≠ 0%nat → (length idx ≤ fuel)%nat → idx ≠ [] →
  batch_size = 1%nat ∨ length idx `mod` batch_size = 1%nat →
  Exists (λ batch, length batch = 1%nat) (batched_fuel fuel batch_size idx).
Proof.
  intros Hbs0. revert idx.
  induction fuel as [|fuel IH]; intros idx Hfuel Hne Hrow.
  { destruct idx; [done | simpl in Hfuel; lia]. }
  destruct idx as [|i idx]; [done|]. cbn [batched_fuel].
  destruct (decide (length (take batch_size (i :: idx)) = 1%nat)) as [|Hhd].
  { by apply Exists_cons_hd. }
  apply Exists_cons_tl. rewrite length_take in Hhd.
  destruct Hrow as [->|Hmod]; [simpl in Hhd; lia|].
  assert (batch_size ≤ length (i :: idx))%nat as Hle.
  { destruct (decide (batch_size ≤ length (i :: idx))%nat); [done|].
    rewrite Nat.mod_small in Hmod by lia. lia. }
  assert (length (drop batch_size (i :: idx)) `mod` batch_size = 1%nat)
    as Hmod'.
  { rewrite length_drop.
    replace (length (i :: idx)) with
      (length (i :: idx) - batch_size + 1 * batch_size)%nat in Hmod by lia.
    by rewrite Nat.Div0.mod_add in Hmod. }
  apply IH.
  - rewrite length_drop. simpl in *. lia.
  - intros Hnil. rewrite Hnil in Hmod'. simpl in Hmod'.
    rewrite Nat.Div0.mod_0_l in Hmod'. done.
  - by right.
Qed.

Lemma learn_epoch_single_row dataloader w :
  ready w → ds_wf (dl_dataset dataloader) →
  Dataset_len (dl_dataset dataloader) ≠ 0%nat →
  dl_batch_size dataloader ≠ 0%nat →
  ¬ single_row_free (dl_batch_size dataloader)
      (Dataset_len (dl_dataset dataloader)) →
  ∃ w', learn_epoch dataloader w = (Raise explained_variance_error, w') ∧
        total_timestep (self w') = total_timestep (self w).
Proof.
  intros Hready Hwf Hlen Hbs Hrows. unfold learn_epoch, for_data_in.
  rewrite bind_run. unfold random, zoom, step.
  pose proof (randperm_Permutation (Dataset_len (dl_dataset dataloader))
                (torch_rng w)) as Hperm.
  pose proof (randperm_nonempty _ (torch_rng w) Hlen) as Hne.
  destruct (randperm _ _) as [perm g]. simpl in Hperm, Hne.
  assert (Forall (λ i, (i < Dataset_len (dl_dataset dataloader))%nat) perm)
    as Hlt.
  { rewrite Hperm. apply Forall_seq. lia. }
  destruct (mapM_raise_at
              (λ s, ready s ∧ total_timestep (self s) = total_timestep (self w))
              (λ idx : list nat, length idx = 1%nat)
              explained_variance_error
              (λ idx, data ← mapM (Dataset_getitem (dl_dataset dataloader)) idx;
                      learn_one_update data)
              (batched (dl_batch_size dataloader) perm) (set_rng g w))
    as (w' & Hrun & _ & Ht); [| |done|by exists w'].
  - eapply Forall_impl; [apply (batched_fuel_Forall _ _ _ _ Hlt)|].
    intros idx Hidx s [Hs Ht]. simpl in Hidx.
    destruct (collate_rows _ idx s Hwf Hidx) as (data & Hdata & Hdlen).
    rewrite (bind_ok _ _ _ _ _ Hdata).
    pose proof Hs as [[h Hh] _].
    destruct (learn_one_update_core data s h Hh Hs)
      as (out & s' & Hrun & Hr & [Hstep _] & _).
    exists out, s'. rewrite Hrun, Hdlen. split; [done|].
    split; [done | congruence].
  - apply batched_fuel_single_row; [done | done | done |].
    apply Permutation_length in Hperm. rewrite Hperm, length_seq.
    by apply not_single_row_free.
Qed.

Lemma learn_single_row D w :
  ready w → well_formed_batch D →
  train_batch_size (config (self w)) ≠ 0%nat →
  ¬ single_row_free (train_batch_size (config (self w)))
      (sum_list (map len D)) →
  (1 ≤ train_num_epochs (config (self w)))%Z →
  ∃ w', learn D w = (Raise explained_variance_error, w') ∧
        total_timestep (self w') = total_timestep (self w).
Proof.
  intros Hready HD Hbs Hrows Hn. pose proof HD as (HDne & Hsteps & Hone).
  rewrite learn_unfold.
  destruct (learn_dataset_run D w HD) as (ds & Hds & Hwf & Hlen & _).
  rewrite (bind_ok _ _ _ _ _ Hds). rewrite bind_run. simpl.
  destruct (train_batch_size (config (self w))) as [|bs] eqn:Hb; [done|].
  rewrite bind_run. simpl. rewrite bind_run. simpl.
  assert (Dataset_len ds ≠ 0%nat) as Hds0.
  { rewrite Hlen. destruct D as [|traj D]; [done|].
    apply Forall_cons in Hsteps as [Ht _]. simpl. unfold len at 1.
    destruct (steps traj); [done | simpl; lia]. }
  pose proof (range_pos _ Hn) as Hrange.
  destruct (range (train_num_epochs (config (self w)))) as [|x xs]; [done|].
  destruct (learn_epoch_single_row {| dl_dataset := ds; dl_batch_size := S bs |}
              w Hready Hwf Hds0) as (w' & Hepoch & Ht);
    [done | by simpl; rewrite Hlen |].
  cbn [for_assign]. rewrite bind_run, bind_run, Hepoch. by exists w'.
Qed.

(** [learn] returns exactly when no minibatch has one row.  On a ready
    agent, for a well-formed batch of [n] timesteps, a positive batch size
    and at least one epoch: [learn] returns when the batch size is not 1
    and the remainder of [n] by the batch size is not 1; otherwise the
    first epoch meets a minibatch of one row, and [learn] raises what [ev]
    raises, before the counter is advanced. *)
Theorem learn_returns_iff_no_single_row D w :
  ready w → well_formed_batch D →
  train_batch_size (config (self w)) ≠ 0%nat →
  (1 ≤ train_num_epochs (config (self w)))%Z →
  (returns (learn D) w = true ↔
   single_row_free (train_batch_size (config (self w)))
     (sum_list (map len D))) ∧
  (¬ single_row_free (train_batch_size (config (self w)))
       (sum_list (map len D)) →
   ∃ w',
     learn D w = (Raise explained_variance_error, w') ∧
     total_timestep (self w') = total_timestep (self w)).
Proof.
  intros Hready HD Hbs Hn. split; [split|].
  - intros Hret.
    destruct (decide (train_batch_size (config (self w)) = 1%nat)) as [H1|H1].
    + destruct (learn_single_row D w Hready HD Hbs) as (w' & Hrun & _);
        [by intros [? _] | done |].
      unfold returns in Hret. by rewrite Hrun in Hret.
    + split; [done|]. intros Hmod.
      destruct (learn_single_row D w Hready HD Hbs) as (w' & Hrun & _);
        [by intros [_ ?] | done |].
      unfold returns in Hret. by rewrite Hrun in Hret.
  - intros Hrows.
    destruct (learn_returns D w Hready HD Hbs Hrows Hn) as (out & w' & Hrun).
    unfold returns. by rewrite Hrun.
  - intros Hrows. by apply learn_single_row.
Qed.
End AgentFacts.

(** ** The agent on the small backend *)

Section Runs.
Import Toy.
Local Open Scope R_scope.

Lemma agent0_init epochs sched standardize :
  Agent_init (config0 epochs sched standardize) env0 tt =
    (Ok (agent0 epochs sched standardize), tt).
Proof. by destruct sched. Qed.

Lemma world0_ready epochs sched standardize :
  ready (world0 epochs sched standardize).
Proof. split; [by eexists | destruct sched; simpl; [by eexists | done]]. Qed.

Lemma batch0_well_formed : well_formed_batch batch0.
Proof. split; [done|]. split; [by repeat constructor | simpl; lia]. Qed.

(** Claim C1 at a failing input: two epochs of one minibatch each.  The
    approximate KL of the two updates is 0 and then 1, of mean 1/2;
    [learn] reports 1, the mean over the second epoch alone. *)
Theorem learn_aggregates_last_epoch_only :
  invocation_column "approx_kl" batch0 (world0 2 false false) = [0; 1] ∧
  diag "approx_kl" batch0 (world0 2 false false) = Some (DFloat 1) ∧
  mean (invocation_column "approx_kl" batch0 (world0 2 false false)) = 1 / 2.
Proof.
  assert (invocation_column "approx_kl" batch0 (world0 2 false false) = [0; 1])
    as Hcol.
  { vm_compute. repeat f_equal; lra. }
  split; [done|]. split.
  - vm_compute. do 2 f_equal. lra.
  - rewrite Hcol. unfold mean. simpl. lra.
Qed.

Lemma Actor_init_unsupported_action_space_witness :
  ∃ actor,
    Actor_init (config0 1 false false) env_multi_discrete tt = (Ok actor, tt) ∧
    action_head actor = None.
Proof.
  destruct (@Actor_init_unsupported_action_space torch
              (config0 1 false false) env_multi_discrete tt)
    as (actor & [] & Hinit & Hhead & _); [done | done | done |].
  exists actor. split; [exact Hinit | exact Hhead].
Defined.

Lemma policy_loss_clipped_surrogate_witness :
  ∃ out w', learn_one_update data0 (world0 1 false false) = (Ok out, w') ∧
            is_Some (out !! "policy_loss").
Proof.
  destruct (policy_loss_clipped_surrogate data0 (world0 1 false false) tt)
    as (out & w' & Hrun & Hloss);
    [reflexivity | apply world0_ready | simpl; lia |].
  exists out, w'. split; [exact Hrun | by eexists].
Defined.

Lemma value_loss_clipped_witness :
  ∃ out w', learn_one_update data0 (world0 1 false false) = (Ok out, w') ∧
            is_Some (out !! "value_loss").
Proof.
  destruct (value_loss_clipped data0 (world0 1 false false) tt)
    as (out & w' & Hrun & Hloss);
    [reflexivity | apply world0_ready | simpl; lia |].
  exists out, w'. split; [exact Hrun | by eexists].
Defined.

Lemma unchanged_policy_ratio_one_witness :
  Forall (λ ratio, ratio = 1) (ratios (world0 1 false false) tt data0) ∧
  ∃ out w', learn_one_update data0 (world0 1 false false) = (Ok out, w') ∧
            out !! "policy_loss" = Some (- mean (map old_A data0)).
Proof.
  destruct (unchanged_policy_ratio_one data0 (world0 1 false false) tt)
    as [Hratio Hloss].
  - reflexivity.
  - apply world0_ready.
  - reflexivity.
  - simpl. lra.
  - split; [exact Hratio|]. apply Hloss. simpl. lia.
Defined.

Lemma total_timestep_running_sum_witness :
  total_timestep
    (self (mapM learn [batch0; [traj0; traj0]]
             {| self := agent0 2 false false; torch_rng := tt |}).2) = 6%nat.
Proof.
  destruct (@total_timestep_running_sum torch trainable_actor critic_trainable
              (config0 2 false false) env0 tt
              (agent0 2 false false) tt [batch0; [traj0; traj0]])
    as (_ & Hsum & _); [reflexivity | vm_compute; reflexivity |].
  exact Hsum.
Defined.

Lemma advantage_standardization_witness :
  well_formed_batch batch0 ∧
  ∃ ds, learn_dataset batch0 (world0 1 false true) = (Ok ds, world0 1 false true) ∧
        mean (ds_As ds) = 0.
Proof.
  split; [apply batch0_well_formed|].
  destruct (advantage_standardization batch0 (world0 1 false true)
              batch0_well_formed) as (ds & Hrun & _ & Hstd).
  exists ds. split; [exact Hrun|]. by destruct (Hstd eq_refl) as (_ & Hmean & _).
Defined.

Lemma batch0_advantages :
  batch_advantages (world0 1 false true) batch0 = replicate 2 1.
Proof. vm_compute. repeat f_equal; lra. Qed.

(** Claim C6 at a batch of equal advantages: standardization is enabled,
    and the standardized batch has standard deviation 0, at distance 1
    from 1. *)
Lemma standardized_constant_batch :
  agent_standardize_adv (config (self (world0 1 false true))) = true ∧
  ∃ ds, learn_dataset batch0 (world0 1 false true) = (Ok ds, world0 1 false true) ∧
        std (ds_As ds) = 0 ∧
        ¬ Rabs (std (ds_As ds) - 1) <= 1 / 2.
Proof.
  split; [reflexivity|].
  destruct (learn_dataset_run batch0 (world0 1 false true) batch0_well_formed)
    as (ds & Hrun & _ & _ & HA).
  exists ds. split; [exact Hrun|].
  assert (std (ds_As ds) = 0) as Hstd.
  { rewrite HA. change (agent_standardize_adv _) with true. cbv iota.
    rewrite batch0_advantages. apply (std_constant _ 2). }
  split; [exact Hstd|]. rewrite Hstd.
  replace (0 - 1) with (- (1)) by lra. rewrite Rabs_Ropp, Rabs_R1. lra.
Qed.

Lemma choose_action_frame_witness :
  self (choose_action obs0 (world0 1 false false)).2 =
    self (world0 1 false false).
Proof.
  destruct (choose_action_frame obs0 (world0 1 false false)) as [Hself _];
    [by eexists | exact Hself].
Defined.



Lemma learn_needs_an_epoch_witness :
  ∃ w', learn batch0 (world0 0 false false) =
          (Raise (UnboundLocalError "logs"), w').
Proof.
  destruct (learn_needs_an_epoch batch0 (world0 0 false false))
    as (e & w' & Hrun & He); [simpl; lia|].
  exists w'. rewrite Hrun.
  by rewrite (He (world0_ready _ _ _) batch0_well_formed).
Defined.

Lemma data0_runs : returns (learn_one_update data0) (world0 1 false false) = true.
Proof. vm_compute. reflexivity. Qed.

Lemma data0_unchanged_policy :
  map old_logprob data0 = new_logprobs (world0 1 false false) tt data0.
Proof. reflexivity. Qed.

Lemma Actor_init_supported_action_space_witness :
  ∃ actor,
    Actor_init (config0 1 false false) env0 tt = (Ok actor, tt) ∧
    is_Some (action_head actor).
Proof.
  destruct (@Actor_init_supported_action_space torch
              (config0 1 false false) env0 tt)
    as (actor & [] & Hinit & Hhead & _); [reflexivity | done |].
  exists actor. split; [exact Hinit | exact Hhead].
Defined.

Lemma init_empty_sizes_witness :
  ∃ g', Agent_init config_no_layers env0 tt = (Raise IndexError, g').
Proof.
  destruct (@init_empty_sizes torch trainable_actor critic_trainable
              config_no_layers env0 tt) as (_ & _ & Hagent); [reflexivity|].
  exact Hagent.
Defined.

Lemma Agent_init_ready_witness :
  ∃ agent g',
    Agent_init (config0 1 true false) env0 tt = (Ok agent, g') ∧
    is_Some (policy_lr_scheduler agent).
Proof.
  destruct (@Agent_init_ready torch trainable_actor critic_trainable
              (config0 1 true false) env0 tt)
    as (agent & g' & Hinit & _ & Hsched); [reflexivity | done |].
  exists agent, g'. split; [exact Hinit | by apply Hsched].
Defined.

Lemma choose_action_entries_witness :
  ∃ out, (choose_action obs0 (world0 1 false false)).1 = Ok out ∧
         is_Some (out !! "raw_action").
Proof.
  destruct (choose_action_entries obs0 (world0 1 false false))
    as (out & d & a & e & V & Hrun & _ & _ & Hraw & _); [by eexists|].
  exists out. split; [exact Hrun | by eexists].
Defined.

Lemma unsupported_agent_fails_at_first_use_witness :
  choose_action obs0 (world_no_head 1) =
    (Raise (AttributeError "action_head"), world_no_head 1).
Proof.
  destruct (@unsupported_agent_fails_at_first_use torch trainable_actor
              critic_trainable (config0 1 false false) env_multi_discrete tt)
    as (agent & g' & Hinit & Huse); [reflexivity | done |].
  injection Hinit as <- <-.
  by destruct (Huse (world_no_head 1) eq_refl) as [Hchoose _].
Defined.

Lemma learn_one_update_keys_witness :
  ∃ out, (learn_one_update data0 (world0 1 false false)).1 = Ok out ∧
         "approx_kl" ∈ dom out.
Proof.
  pose proof data0_runs as Hret. unfold returns in Hret.
  destruct (learn_one_update data0 (world0 1 false false)) as [[out|e] w']
    eqn:Hrun; [|discriminate Hret].
  exists out. split; [reflexivity|].
  rewrite (learn_one_update_keys _ _ _ _ Hrun). set_solver.
Defined.

Lemma clip_frac_bounds_witness :
  ∃ out w' clip_frac,
    learn_one_update data0 (world0 1 false false) = (Ok out, w') ∧
    out !! "clip_frac" = Some clip_frac ∧ 0 <= clip_frac <= 1.
Proof.
  apply (clip_frac_bounds data0 (world0 1 false false) tt);
    [reflexivity | apply world0_ready | simpl; lia].
Defined.

Lemma value_loss_at_least_mse_witness :
  ∃ out w' value_loss,
    learn_one_update data0 (world0 1 false false) = (Ok out, w') ∧
    out !! "value_loss" = Some value_loss ∧ 0 <= value_loss.
Proof.
  destruct (value_loss_at_least_mse data0 (world0 1 false false) tt)
    as (out & w' & v & Hrun & Hv & Hpos & _);
    [reflexivity | apply world0_ready | simpl; lia |].
  by exists out, w', v.
Defined.

Lemma policy_loss_at_least_unclipped_witness :
  ∃ out w' policy_loss,
    learn_one_update data0 (world0 1 false false) = (Ok out, w') ∧
    out !! "policy_loss" = Some policy_loss ∧
    - mean (tmul (ratios (world0 1 false false) tt data0) (map old_A data0))
      <= policy_loss.
Proof.
  apply (policy_loss_at_least_unclipped data0 (world0 1 false false) tt);
    [reflexivity | apply world0_ready | simpl; lia].
Defined.

Lemma inside_clip_band_unclipped_witness :
  ∃ out w',
    learn_one_update data0 (world0 1 false false) = (Ok out, w') ∧
    out !! "clip_frac" = Some 0.
Proof.
  destruct (inside_clip_band_unclipped data0 (world0 1 false false) tt)
    as (out & w' & Hrun & _ & Hclip);
    [reflexivity | apply world0_ready | simpl; lia | |].
  - rewrite (ratios_unchanged_policy _ _ _ data0_unchanged_policy).
    repeat constructor; simpl; lra.
  - by exists out, w'.
Defined.

Lemma value_inside_clip_band_mse_witness :
  ∃ out w',
    learn_one_update data0 (world0 1 false false) = (Ok out, w') ∧
    is_Some (out !! "value_loss").
Proof.
  destruct (value_inside_clip_band_mse data0 (world0 1 false false) tt)
    as (_ & out & w' & Hrun & Hloss);
    [reflexivity | apply world0_ready | simpl; lia | |].
  - repeat constructor; simpl; lra.
  - exists out, w'. split; [exact Hrun | by eexists].
Defined.

Lemma unchanged_policy_diagnostics_witness :
  ∃ out w',
    learn_one_update data0 (world0 1 false false) = (Ok out, w') ∧
    out !! "approx_kl" = Some 0 ∧ out !! "clip_frac" = Some 0.
Proof.
  apply (unchanged_policy_diagnostics data0 (world0 1 false false) tt);
    [reflexivity | apply world0_ready | simpl; lia | reflexivity | simpl; lra].
Defined.

Lemma update_steps_scheduler_with_counter_witness :
  ∃ s',
    policy_lr_scheduler
      (self (learn_one_update [sample0] (world0 1 true false)).2) = Some s' ∧
    last_epoch s' = 0%nat.
Proof.
  destruct (update_steps_scheduler_with_counter [sample0] (world0 1 true false)
              tt scheduler0)
    as [(s' & Hs & Hlast & _) _];
    [reflexivity | reflexivity | reflexivity |].
  exists s'. split; [exact Hs | exact Hlast].
Defined.

Lemma update_keeps_learning_rates_witness :
  lr (policy_optimizer (self (learn_one_update data0 (world0 1 false false)).2)) =
    lr (policy_optimizer (self (world0 1 false false))).
Proof.
  pose proof data0_runs as Hret. unfold returns in Hret.
  destruct (learn_one_update data0 (world0 1 false false)) as [[out|e] w']
    eqn:Hrun; [|discriminate Hret].
  by destruct (update_keeps_learning_rates data0 (world0 1 false false) out w'
                 eq_refl Hrun) as [Hlr _].
Defined.

Lemma learn_rejects_empty_trajectory_witness :
  learn [traj0; traj_no_step] (world0 1 false false) =
    (Raise (RuntimeError "torch.cat: expected a non-empty list of Tensors"),
     world0 1 false false).
Proof.
  apply (learn_rejects_empty_trajectory [traj0; traj_no_step]).
  apply Exists_cons_tl, Exists_cons_hd. reflexivity.
Defined.

Lemma learn_rejects_single_timestep_witness :
  learn [traj_one_step] (world0 1 false false) =
    (Raise AssertionError, world0 1 false false).
Proof.
  apply (learn_rejects_single_timestep [traj_one_step]).
  - done.
  - constructor; [done | constructor].
  - reflexivity.
Defined.

Lemma learn_zero_epochs_advances_counter_witness :
  ∃ w', learn batch0 (world0 0 false false) =
          (Raise (UnboundLocalError "logs"), w') ∧
        total_timestep (self w') = 2%nat.
Proof.
  apply (learn_zero_epochs_advances_counter batch0 (world0 0 false false));
    [simpl; lia | apply world0_ready | apply batch0_well_formed | done].
Defined.

Lemma learn_calls_return_witness :
  ∃ outs w',
    mapM learn [batch0; batch0] (world0 1 false false) = (Ok outs, w') ∧
    length outs = 2%nat.
Proof.
  destruct (learn_calls_return [batch0; batch0] (world0 1 false false))
    as (outs & w' & Hrun & Hlen & _);
    [apply world0_ready
    | constructor; [|constructor; [|constructor]]; apply batch0_well_formed
    | done
    | constructor; [|constructor; [|constructor]]; split; simpl; lia
    | done |].
  exists outs, w'. split; [exact Hrun | exact Hlen].
Defined.

Lemma fresh_agent_learns_witness :
  ∃ agent g' outs w',
    Agent_init (config0 1 false false) env0 tt = (Ok agent, g') ∧
    mapM learn [batch0] {| self := agent; torch_rng := g' |} = (Ok outs, w') ∧
    length outs = 1%nat.
Proof.
  apply (@fresh_agent_learns torch trainable_actor critic_trainable
           (config0 1 false false) env0 tt [batch0]);
    [reflexivity | done | done | done
    | constructor; [apply batch0_well_formed | constructor]
    | constructor; [split; simpl; lia | constructor]].
Defined.

Lemma learn_reports_rate_of_previous_count_witness :
  ∃ out w',
    learn batch0 (world0 1 true false) = (Ok out, w') ∧
    is_Some (out !! "current_lr") ∧
    total_timestep (self w') = 2%nat.
Proof.
  destruct (learn_reports_rate_of_previous_count batch0 (world0 1 true false)
              scheduler0)
    as (out & w' & Hrun & Hlr & Htotal);
    [apply world0_ready | apply batch0_well_formed | done
    | split; simpl; lia | done | reflexivity | reflexivity |].
  exists out, w'. split; [exact Hrun|]. split; [by eexists | exact Htotal].
Defined.

Lemma learn_without_head_raises_witness :
  ∃ w', learn batch0 (world_no_head 1) =
          (Raise (AttributeError "action_head"), w') ∧
        self w' = self (world_no_head 1).
Proof.
  apply (learn_without_head_raises batch0 (world_no_head 1));
    [reflexivity | apply batch0_well_formed | done | done].
Defined.


Lemma batch_three_well_formed : well_formed_batch [traj0; traj_one_step].
Proof.
  split; [done|]. split; [|simpl; lia].
  constructor; [done | constructor; [done | constructor]].
Qed.

Lemma learn_returns_iff_no_single_row_witness :
  returns (learn batch0) (world0 1 false false) = true ∧
  ∃ w', learn [traj0; traj_one_step] (world0 1 false false) =
          (Raise AssertionError, w') ∧
        total_timestep (self w') = 0%nat.
Proof.
  split.
  - destruct (learn_returns_iff_no_single_row batch0 (world0 1 false false))
      as [[_ Hret] _];
      [apply world0_ready | apply batch0_well_formed | done | done |].
    apply Hret. split; simpl; lia.
  - destruct (learn_returns_iff_no_single_row [traj0; traj_one_step]
                (world0 1 false false)) as [_ Hraise];
      [apply world0_ready | apply batch_three_well_formed | done | done |].
    apply Hraise. intros [_ Hmod]. by apply Hmod.
Defined.
End Runs.
